(** * coin_flip.py: batch splitting, streak counting and merging

    A shallow embedding of [src/coin_flip.py] and the properties of its
    three components (batch splitter, trial runner, result merger) and of
    its entry point.

    Python integers are unbounded and are modelled by [Z]; [//] on integers
    is floor division, which is [Z.div] for a non-zero divisor.  A dictionary
    compared with [==] is a finite map, modelled by [gmap]; where object
    identity matters (the [[heads, tails]] lists are mutated in place) the
    objects live in an explicit store, see [Module Store]. *)

From Stdlib Require Import ZArith Lia QArith.
From stdpp Require Import gmap strings list fin_maps.
Local Open Scope Z_scope.

(** ** Exceptions and results *)

Inductive exn : Type :=
  | ZeroDivisionError            (* [num_trials // 0] *)
  | ValueError                   (* [max()] of an empty sequence, [open()]
                                    on a path with a NUL character *)
  | IsADirectoryError            (* [open()] on a directory *)
  | FileNotFoundError            (* [open()] where the directory of the
                                    path is missing, or on the empty path *)
  | OSError (name : string)      (* any other failure of [open()]:
                                    [PermissionError], ... *)
  | FileExists (out_file : string).
                                 (* [Exception('File ... already exists ...')] *)

Inductive result (A : Type) : Type :=
  | Ok (a : A)
  | Raise (e : exn).
Arguments Ok {A} a.
Arguments Raise {A} e.

(** ** Small Python built-ins *)

(** [range(n)]: the integers [0 .. n-1], empty when [n <= 0]. *)
Definition range (n : Z) : list Z := seqZ 0 n.

(** [sum(l)] *)
Definition sum_Z (l : list Z) : Z := foldr Z.add 0 l.

(** ** Batch splitter

<<
    batch_size = num_trials // num_workers
    remainder = num_trials - batch_size * num_workers
    for i in range(num_workers):
        yield batch_size + int(i < remainder)
>>
    The generator is consumed to its end by [main]; the values it yields
    are collected in a list.  The division raises before the first value
    is yielded when [num_workers] is zero. *)
Definition yield_worker_batch_sizes (num_trials num_workers : Z)
  : result (list Z) :=
  if decide (num_workers = 0) then Raise ZeroDivisionError
  else
    let batch_size := num_trials `div` num_workers in
    let remainder := num_trials - batch_size * num_workers in
    Ok ((λ i, batch_size + Z.b2z (i <? remainder)) <$> range num_workers).

(** ** Histograms and coin flips

    A trial result is a dictionary [{chain_length: [num_heads, num_tails]}].
    As a value (what [==] compares, and what crosses a process boundary
    through the queue) it is a finite map from integers to pairs,
    [gmap Z (Z * Z)].

<<
    return 'H' if random.random() >= 0.5 else 'T'
>>
    [random.random()] returns a double in [0, 1).  Every double is a
    rational number and [>=] on doubles is exact, so a draw is modelled by
    the rational it denotes.  The generator of a process is modelled by the
    sequence of draws it returns, [random i] being the draw of the call
    number [i]. *)

Inductive coin : Type := Heads | Tails.

Definition flip_coin (draw : Q) : coin :=
  if Qle_bool (1 # 2) draw then Heads else Tails.

(** ** Trial runner, as a function on values

<<
    head_chains = {}
    counter = 1
    for _ in range(num_trials):
        chain = [0, 0]
        if counter in head_chains:
            chain = head_chains[counter]
        else:
            head_chains[counter] = chain
        flip = flip_coin()
        if flip == 'H':
            chain[0] += 1
            counter += 1
        else:
            chain[1] += 1
            counter = 1
    return head_chains
>>
    [chain] is the very list stored under [counter], so the increment is
    seen through the dictionary: on values, the entry under [counter] is
    replaced by the incremented pair.  That this is what the code does on
    objects is [store_perform_trials_refines] below.  The queue [q] is how
    [main] gets the histogram of a worker process; it is modelled there
    ([worker_results]). *)

Definition trial (st : gmap Z (Z * Z) * Z) (draw : Q) : gmap Z (Z * Z) * Z :=
  let '(head_chains, counter) := st in
  let chain := default (0, 0) (head_chains !! counter) in
  match flip_coin draw with
  | Heads => (<[counter := (chain.1 + 1, chain.2)]> head_chains, counter + 1)
  | Tails => (<[counter := (chain.1, chain.2 + 1)]> head_chains, 1)
  end.

(** The state [(head_chains, counter)] after the loop. *)
Definition run_trials (num_trials : Z) (random : nat → Q)
  : gmap Z (Z * Z) * Z :=
  foldl trial (∅, 1) (random <$> seq 0 (Z.to_nat num_trials)).

Definition perform_trials (num_trials : Z) (random : nat → Q)
  : gmap Z (Z * Z) :=
  (run_trials num_trials random).1.

(** ** Result merger, as a function on values

<<
    d = {}
    for tr in trial_results:
        for k in tr:
            item = tr[k]
            if k in d:
                d[k][0] += item[0]
                d[k][1] += item[1]
            else:
                d[k] = item[:]
    return d
>> *)

Definition merge_item (k : Z) (item : Z * Z) (d : gmap Z (Z * Z))
  : gmap Z (Z * Z) :=
  match d !! k with
  | Some dk => <[k := (dk.1 + item.1, dk.2 + item.2)]> d
  | None => <[k := item]> d
  end.

(** The inner loop: one trial result is folded into [d].  [map_fold] goes
    through the keys of [tr] in an order of its own and Python in the order
    of insertion; each key of [tr] comes once, so the order does not matter
    ([fold_keys_merge_into]), and [Store.merge_one] takes the keys in the
    order of insertion. *)
Definition merge_into (d tr : gmap Z (Z * Z)) : gmap Z (Z * Z) :=
  map_fold merge_item d tr.

Definition merge_trials (trial_results : list (gmap Z (Z * Z)))
  : gmap Z (Z * Z) :=
  foldl merge_into ∅ trial_results.

(** On values, folding one dictionary into another adds them entry by
    entry; [add_chain] is the sum of two entries under the same key, in the
    form [union_with] takes it. *)
Definition add_chain (a b : Z * Z) : option (Z * Z) :=
  Some (a.1 + b.1, a.2 + b.2).

(** ** Counting over a histogram *)

(** The sum of [f] over the entries of a histogram. *)
Definition sum_over (f : Z * Z → Z) (m : gmap Z (Z * Z)) : Z :=
  map_fold (λ _ c acc, f c + acc) 0 m.

Definition total_tails : gmap Z (Z * Z) → Z := sum_over snd.
(** Sum of heads + tails over all keys. *)
Definition total_flips : gmap Z (Z * Z) → Z := sum_over (λ c, c.1 + c.2).

(** [m.get(k, [0, 0])] *)
Definition get_chain (m : gmap Z (Z * Z)) (k : Z) : Z * Z :=
  default (0, 0) (m !! k).

Definition heads_at (m : gmap Z (Z * Z)) (k : Z) : Z := (get_chain m k).1.
Definition tails_at (m : gmap Z (Z * Z)) (k : Z) : Z := (get_chain m k).2.

(** The value of [counter] when flip number [i] (from 0) is made: the
    length of the streak that flip is counted against. *)
Definition counter_at (random : nat → Q) (i : nat) : Z :=
  (run_trials (Z.of_nat i) random).2.

(** The longest streak length any of the [num_trials] flips was counted
    against; 0 when no flip is made. *)
Definition max_streak (num_trials : Z) (random : nat → Q) : Z :=
  foldr Z.max 0 (counter_at random <$> seq 0 (Z.to_nat num_trials)).

(** ** The same two functions on objects

    In Python the dictionaries and the [[num_heads, num_tails]] lists are
    objects: a variable or a dictionary entry holds a reference, [chain[0]
    += 1] changes the list every reference sees, and [item[:]] makes a new
    list.  [Module Store] runs [perform_trials] and [merge_trials] on an
    explicit object store, statement by statement.  A computation takes the
    store and returns a value and the new store, or [None] where Python
    would raise ([KeyError], [TypeError]). *)

Module Store.

(** A reference is the index of the object in the store; objects are
    never freed, and a new object is added at the end. *)
Abbreviation loc := nat.

Inductive obj : Type :=
  | Dict (items : list (Z * loc))
      (* a dictionary: its keys, in insertion order, with the
         references it holds *)
  | List2 (num_heads num_tails : Z).
      (* a list of two integers *)

Abbreviation store := (list obj).

Definition M (A : Type) : Type := store → option (A * store).

#[global] Instance M_ret : MRet M := λ A (a : A) s, Some (a, s).

#[global] Instance M_bind : MBind M := λ A B (f : A → M B) (m : M A) s,
  match m s with
  | Some (a, s') => f a s'
  | None => None
  end.

Definition raise {A : Type} : M A := λ _, None.

(** *** Dictionary entries *)

(** The reference stored under [k], if any. *)
Fixpoint dict_lookup (k : Z) (items : list (Z * loc)) : option loc :=
  match items with
  | [] => None
  | (k', v) :: rest => if decide (k = k') then Some v else dict_lookup k rest
  end.

(** Assignment to a key: an existing key keeps its place, a new key goes
    to the end. *)
Fixpoint dict_set (k : Z) (v : loc) (items : list (Z * loc))
  : list (Z * loc) :=
  match items with
  | [] => [(k, v)]
  | (k', v') :: rest =>
      if decide (k = k') then (k, v) :: rest
      else (k', v') :: dict_set k v rest
  end.

(** *** Access to the store *)

Definition alloc (o : obj) : M loc := λ s, Some (length s, s ++ [o]).

Definition dict_at (s : store) (l : loc) : option (list (Z * loc)) :=
  match s !! l with
  | Some (Dict items) => Some items
  | _ => None
  end.

Definition list_at (s : store) (l : loc) : option (Z * Z) :=
  match s !! l with
  | Some (List2 h t) => Some (h, t)
  | _ => None
  end.

Definition get_dict (l : loc) : M (list (Z * loc)) := λ s,
  match dict_at s l with
  | Some items => Some (items, s)
  | None => None
  end.

Definition get_list (l : loc) : M (Z * Z) := λ s,
  match list_at s l with
  | Some c => Some (c, s)
  | None => None
  end.

Definition put (l : loc) (o : obj) : M unit := λ s,
  if decide (l < length s)%nat then Some ((), <[l := o]> s) else None.

(** *** Python expressions and statements *)

(** [{}] *)
Definition new_dict : M loc := alloc (Dict []).

(** [[h, t]] *)
Definition new_list (h t : Z) : M loc := alloc (List2 h t).

(** [k in d] *)
Definition contains (d : loc) (k : Z) : M bool :=
  items ← get_dict d;
  mret (bool_decide (is_Some (dict_lookup k items))).

(** [d[k]] *)
Definition getitem (d : loc) (k : Z) : M loc :=
  items ← get_dict d;
  match dict_lookup k items with
  | Some v => mret v
  | None => raise
  end.

(** [d[k] = v] *)
Definition setitem (d : loc) (k : Z) (v : loc) : M unit :=
  items ← get_dict d;
  put d (Dict (dict_set k v items)).

(** [l[0]] and [l[1]] *)
Definition index0 (l : loc) : M Z := c ← get_list l; mret c.1.
Definition index1 (l : loc) : M Z := c ← get_list l; mret c.2.

(** [l[0] += x] and [l[1] += x] *)
Definition iadd0 (l : loc) (x : Z) : M unit :=
  c ← get_list l; put l (List2 (c.1 + x) c.2).
Definition iadd1 (l : loc) (x : Z) : M unit :=
  c ← get_list l; put l (List2 c.1 (c.2 + x)).

(** [l[:]] *)
Definition copy (l : loc) : M loc :=
  c ← get_list l; new_list c.1 c.2.

(** [for x in xs: body(x)] *)
Fixpoint for_each {A : Type} (xs : list A) (body : A → M unit) : M unit :=
  match xs with
  | [] => mret ()
  | x :: rest => body x ;; for_each rest body
  end.

(** *** Trial runner *)

(** The body of the loop; it returns the new value of [counter]. *)
Definition trial (head_chains : loc) (counter : Z) (draw : Q) : M Z :=
  chain ← new_list 0 0;
  present ← contains head_chains counter;
  chain ← (if present : bool then getitem head_chains counter
           else setitem head_chains counter chain ;; mret chain);
  match flip_coin draw with
  | Heads => iadd0 chain 1 ;; mret (counter + 1)
  | Tails => iadd1 chain 1 ;; mret 1
  end.

Fixpoint trials (head_chains : loc) (counter : Z) (draws : list Q) : M Z :=
  match draws with
  | [] => mret counter
  | draw :: rest =>
      counter ← trial head_chains counter draw;
      trials head_chains counter rest
  end.

Definition perform_trials (num_trials : Z) (random : nat → Q) : M loc :=
  head_chains ← new_dict;
  trials head_chains 1 (random <$> seq 0 (Z.to_nat num_trials)) ;;
  mret head_chains.

(** *** Result merger *)

(** The body of the inner loop, for the key [k] of [tr]. *)
Definition merge_key (d tr : loc) (k : Z) : M unit :=
  item ← getitem tr k;
  present ← contains d k;
  if present : bool then
    (dk ← getitem d k; x ← index0 item; iadd0 dk x) ;;
    (dk ← getitem d k; x ← index1 item; iadd1 dk x)
  else
    c ← copy item; setitem d k c.

Definition merge_one (d tr : loc) : M unit :=
  items ← get_dict tr;
  for_each items.*1 (merge_key d tr).

Definition merge_trials (trial_results : list loc) : M loc :=
  d ← new_dict;
  for_each trial_results (merge_one d) ;;
  mret d.

(** *** The value of a dictionary object *)

Fixpoint read_items (s : store) (items : list (Z * loc))
  : option (gmap Z (Z * Z)) :=
  match items with
  | [] => Some ∅
  | (k, v) :: rest =>
      match list_at s v, read_items s rest with
      | Some c, Some m => Some (<[k := c]> m)
      | _, _ => None
      end
  end.

(** The histogram a dictionary object stands for, when all its values
    are lists of two integers. *)
Definition value_of (s : store) (d : loc) : option (gmap Z (Z * Z)) :=
  match dict_at s d with
  | Some items => read_items s items
  | None => None
  end.

(** A trial result as [merge_trials] expects it: a dictionary whose
    values are lists of two integers.  (Its keys are distinct, as in
    every dictionary.) *)
Definition is_trial_result (s : store) (d : loc) : Prop :=
  ∃ items, dict_at s d = Some items
           ∧ NoDup items.*1
           ∧ Forall (λ v, is_Some (list_at s v)) items.*2.

(** The objects a dictionary object refers to. *)
Definition values_of (s : store) (d : loc) : list loc :=
  match dict_at s d with
  | Some items => items.*2
  | None => []
  end.

End Store.

(** *** Notions used to state the properties of the store model *)

(** Every object of [s0] is still there in [s], with the same contents. *)
Definition unchanged (s0 s : Store.store) : Prop :=
  ∀ l o, s0 !! l = Some o → s !! l = Some o.

(** The entries [items] stand for the histogram [m] in the store [s]. *)
Definition stands_for (s : Store.store) (items : list (Z * Store.loc))
    (m : gmap Z (Z * Z)) : Prop :=
  ∀ k, m !! k = Store.dict_lookup k items ≫= Store.list_at s.

(** The state of a dictionary that a function builds from the store [s0]:
    the dictionary [d] and the lists it refers to were all made after
    [s0], no list is referred to twice, the objects of [s0] are as they
    were, and the dictionary stands for [m]. *)
Definition owns (s0 s : Store.store) (d : Store.loc)
    (items : list (Z * Store.loc)) (m : gmap Z (Z * Z)) : Prop :=
  unchanged s0 s
  ∧ (length s0 ≤ d)%nat
  ∧ s !! d = Some (Store.Dict items)
  ∧ NoDup items.*1
  ∧ NoDup items.*2
  ∧ Forall (λ v, (length s0 ≤ v)%nat ∧ is_Some (Store.list_at s v)) items.*2
  ∧ stands_for s items m.

(** One step of the inner loop of [merge_trials] on values, for the key
    [k] of the trial result [tr]. *)
Definition merge_key_value (tr : gmap Z (Z * Z)) (d : gmap Z (Z * Z)) (k : Z)
  : gmap Z (Z * Z) :=
  match tr !! k with
  | Some item => merge_item k item d
  | None => d
  end.

(** ** The entry point

<<
    def main(out_file, num_trials=1000, num_workers=1):
        if os.path.isfile(out_file):
            raise Exception(f'File {out_file} already exists - ...')
        num_trials = int(num_trials)
        num_workers = int(num_workers)
        ...
        for batch_size in yield_worker_batch_sizes(num_trials, num_workers):
            p = ctx.Process(target=perform_trials, args=(batch_size, q))
            p.start()
        ...
        while len(results) < num_workers:
            results.append(q.get())
        ...
        merged_results = merge_trials(results)
        m = max(merged_results.keys())
        with open(out_file, 'w', newline='') as f:
            writer.writerow(['chain_length', 'heads', 'tails'])
            for i in range(1, m + 1):
                num_heads, num_tails = merged_results.get(i, [0, 0])
                writer.writerow([i, num_heads, num_tails])
>>
    What [main] does to its surroundings is recorded in a [world]: the
    files, and the log of the processes it started and the lines it
    printed.  What it cannot control comes from an [env]: the draws of the
    generator of each worker process, the order in which the queue hands
    over the results, and whether the operating system lets it open the
    output file.  Once the file is open, the rows are taken to be written
    without failure. *)

Inductive node : Type :=
  | File (header : list string) (rows : list (Z * Z * Z))
  | Directory.

Inductive event : Type :=
  | Started (batch_size : Z)     (* a process running
                                    [perform_trials(batch_size, q)] *)
  | PrintedTiming (num_trials : Z)
  | PrintedDumped (out_file : string).

Record world : Type := World {
  files : gmap string node;
  log : list event;
}.

(** Why [open(path, 'w')] fails on a path that is not a directory. *)
Inductive open_failure : Type :=
  | NoSuchDirectory            (* the directory of the path is missing, or
                                  the path is empty: [FileNotFoundError] *)
  | EmbeddedNul                (* a NUL character in the path:
                                  [ValueError] *)
  | Refused (name : string).   (* anything else, an [OSError] such as
                                  [PermissionError] *)

Definition open_exn (failure : open_failure) : exn :=
  match failure with
  | NoSuchDirectory => FileNotFoundError
  | EmbeddedNul => ValueError
  | Refused name => OSError name
  end.

Record env : Type := Env {
  random_of : nat → nat → Q;   (* [random_of i]: the draws of worker [i] *)
  arrival : nat → nat;         (* which waiting result [q.get()] returns *)
  open_fails : string → option open_failure;
                               (* why [open(path, 'w')] fails, if it does *)
}.

(** [os.path.isfile] *)
Definition isfile (w : world) (path : string) : bool :=
  match files w !! path with
  | Some (File _ _) => true
  | _ => false
  end.

(** The batch sizes of the processes started so far. *)
Definition started (w : world) : list Z :=
  omap (λ ev, match ev with Started b => Some b | _ => None end) (log w).

Definition emit (evs : list event) (w : world) : world :=
  World (files w) (log w ++ evs).

(** [[q.get() for _ in range(n)]]: each call takes one of the results
    that wait in the queue, whichever arrived first. *)
Fixpoint q_get_all {A : Type} (arrival : nat → nat) (n : nat)
    (waiting : list A) : list A :=
  match n with
  | O => []
  | S n' =>
      let j := (arrival n' `mod` length waiting)%nat in
      match waiting !! j with
      | Some x => x :: q_get_all arrival n' (delete j waiting)
      | None => []
      end
  end.

(** The histograms the worker processes put on the queue, worker by
    worker. *)
Definition worker_results (e : env) (sizes : list Z)
  : list (gmap Z (Z * Z)) :=
  imap (λ i batch_size, perform_trials batch_size (random_of e i)) sizes.

(** The list [results] after the [while] loop. *)
Definition collect (e : env) (num_workers : Z) (sizes : list Z)
  : list (gmap Z (Z * Z)) :=
  q_get_all (arrival e) (Z.to_nat num_workers) (worker_results e sizes).

(** [max(d.keys())] *)
Definition max_key (d : gmap Z (Z * Z)) : option Z :=
  map_fold (λ k _ acc, Some (from_option (Z.max k) k acc)) None d.

(** The rows written after the header. *)
Definition csv_rows (merged_results : gmap Z (Z * Z)) (m : Z)
  : list (Z * Z * Z) :=
  (λ i, (i, heads_at merged_results i, tails_at merged_results i))
    <$> seqZ 1 m.

(** The dictionary [merged_results] of [main], when [main] gets that
    far. *)
Definition merged_results (e : env) (num_trials num_workers : Z)
  : result (gmap Z (Z * Z)) :=
  match yield_worker_batch_sizes num_trials num_workers with
  | Raise x => Raise x
  | Ok sizes => Ok (merge_trials (collect e num_workers sizes))
  end.

Definition main (out_file : string) (num_trials num_workers : option Z)
    (e : env) (w : world) : world * result unit :=
  let num_trials := default 1000 num_trials in
  let num_workers := default 1 num_workers in
  if isfile w out_file then (w, Raise (FileExists out_file))
  else
    match yield_worker_batch_sizes num_trials num_workers with
    | Raise x => (w, Raise x)
    | Ok sizes =>
        let w := emit (Started <$> sizes) w in
        let results := collect e num_workers sizes in
        let w := emit [PrintedTiming num_trials] w in
        let merged_results := merge_trials results in
        match max_key merged_results with
        | None => (w, Raise ValueError)
        | Some m =>
            match files w !! out_file with
            | Some Directory => (w, Raise IsADirectoryError)
            | _ =>
                match open_fails e out_file with
                | Some failure => (w, Raise (open_exn failure))
                | None =>
                    let f := File ["chain_length"; "heads"; "tails"]
                                  (csv_rows merged_results m) in
                    let w := World (<[out_file := f]> (files w)) (log w) in
                    (emit [PrintedDumped out_file] w, Ok ())
                end
            end
        end
    end.

(** What the script needs from the machine it runs on. *)
Record host : Type := Host {
  cpu_count : Z;                    (* [mp.cpu_count()] *)
  probability_data_csv : string;    (* [os.path.join(str(pathlib.Path.home()),
                                       'probability_data.csv')] *)
}.

(** <<
    if __name__ == '__main__':
        nt = 1000000
        np = mp.cpu_count()
        op = os.path.join(str(pathlib.Path.home()), 'probability_data.csv')
        main(op, nt, np)
>> *)
Definition script (h : host) (e : env) (w : world) : world * result unit :=
  let nt := 1000000 in
  let np := cpu_count h in
  let op := probability_data_csv h in
  main op (Some nt) (Some np) e w.

(** *** Notions used to state the properties of the pipeline *)

(** The batch of a worker ended while a streak was still open: its last
    flip was heads. *)
Definition ended_on_heads (batch_size : Z) (random : nat → Q) : bool :=
  bool_decide (1 ≤ batch_size)
  && match flip_coin (random (Z.to_nat batch_size - 1)%nat) with
     | Heads => true
     | Tails => false
     end.

(** The number of workers whose batch ended on heads. *)
Definition open_streaks (e : env) (sizes : list Z) : Z :=
  sum_Z (imap (λ i batch_size,
                 Z.b2z (ended_on_heads batch_size (random_of e i))) sizes).

(** A generator that only draws 0 (tails), a queue that always hands
    over the oldest result, and an operating system that opens every
    file. *)
Definition all_tails : env := Env (λ _ _, 0%Q) (λ _, 0%nat) (λ _, None).

(** The same, where the directory of the output path is missing. *)
Definition no_directory : env :=
  Env (λ _ _, 0%Q) (λ _, 0%nat) (λ _, Some NoSuchDirectory).

(** The same, where the output path has a NUL character in it. *)
Definition nul_in_path : env :=
  Env (λ _ _, 0%Q) (λ _, 0%nat) (λ _, Some EmbeddedNul).

Definition empty_world : world := World ∅ [].

(** *** Notions used to state further properties *)

(** The outcomes of the flips of a run of [num_trials] trials, in order. *)
Definition outcomes (num_trials : Z) (random : nat → Q) : list coin :=
  (λ i, flip_coin (random i)) <$> seq 0 (Z.to_nat num_trials).

(** How many of the outcomes are heads, and how many are tails. *)
Definition count_heads (l : list coin) : Z :=
  sum_Z ((λ c, match c with Heads => 1 | Tails => 0 end) <$> l).

Definition count_tails (l : list coin) : Z :=
  sum_Z ((λ c, match c with Heads => 0 | Tails => 1 end) <$> l).

Definition total_heads : gmap Z (Z * Z) → Z := sum_over fst.

(** The keys of a histogram are the lengths 1 .. [longest]. *)
Definition contiguous (m : gmap Z (Z * Z)) (longest : Z) : Prop :=
  ∀ k : Z, k ∈ dom m ↔ 1 ≤ k ≤ longest.

(** The counts of a histogram are not negative and no entry is all
    zero. *)
Definition counted (m : gmap Z (Z * Z)) : Prop :=
  ∀ (k : Z) (c : Z * Z), m !! k = Some c → 0 ≤ c.1 ∧ 0 ≤ c.2 ∧ 1 ≤ c.1 + c.2.


(** *** Runs of heads, read off the flips *)

(** The number of heads at the front of a list of outcomes. *)
Fixpoint leading_heads (l : list coin) : nat :=
  match l with
  | Heads :: rest => S (leading_heads rest)
  | _ => 0%nat
  end.

(** The number of consecutive heads right before flip number [i] (from
    0) of the outcomes [l]: the length of the run of heads that this flip
    extends or ends. *)
Definition heads_before (l : list coin) (i : nat) : Z :=
  Z.of_nat (leading_heads (reverse (take i l))).

(** The length of the longest run of consecutive heads in [l], wherever
    it ends; 0 when there is no head. *)
Definition longest_run (l : list coin) : Z :=
  foldr Z.max 0 (heads_before l <$> seq 0 (S (length l))).

(** Two heads, then tails for ever. *)
Definition heads_heads_tails : nat → Q :=
  (λ i, if decide (i < 2)%nat then 3 # 4 else 1 # 4)%Q.

(** * Properties *)

(** ** The model on concrete inputs *)

Example perform_trials_HHT :
  perform_trials 3 (λ i, if decide (i < 2)%nat then 3 # 4 else 1 # 4)%Q
  = {[ 1 := (1, 0); 2 := (1, 0); 3 := (0, 1) ]}.
Proof. vm_compute. reflexivity. Qed.

Example merge_trials_two :
  merge_trials [ {[ 1 := (2, 1); 2 := (1, 0) ]}; {[ 1 := (0, 3); 4 := (5, 6) ]} ]
  = {[ 1 := (2, 4); 2 := (1, 0); 4 := (5, 6) ]}.
Proof. vm_compute. reflexivity. Qed.

(** Every outcome of a flip comes from some draw in [0, 1), so a property
    proved for all generators holds for every sequence of outcomes. *)
Example flip_coin_heads : flip_coin (1 # 2) = Heads.
Proof. reflexivity. Qed.

Example flip_coin_tails : flip_coin (49 # 100) = Tails.
Proof. reflexivity. Qed.

Example store_perform_trials_HHT :
  Store.perform_trials 3
    (λ i, if decide (i < 2)%nat then 3 # 4 else 1 # 4)%Q []
  = Some (0%nat,
          [Store.Dict [(1, 1%nat); (2, 2%nat); (3, 3%nat)];
           Store.List2 1 0; Store.List2 1 0; Store.List2 0 1]).
Proof. vm_compute. reflexivity. Qed.

Example store_merge_trials_two :
  Store.merge_trials [0; 3]%nat
    [Store.Dict [(1, 1%nat); (2, 2%nat)]; Store.List2 2 1; Store.List2 1 0;
     Store.Dict [(4, 4%nat); (1, 5%nat)]; Store.List2 5 6; Store.List2 0 3]
  = Some (6%nat,
          [Store.Dict [(1, 1%nat); (2, 2%nat)]; Store.List2 2 1;
           Store.List2 1 0; Store.Dict [(4, 4%nat); (1, 5%nat)];
           Store.List2 5 6; Store.List2 0 3;
           Store.Dict [(1, 7%nat); (2, 8%nat); (4, 9%nat)];
           Store.List2 2 4; Store.List2 1 0; Store.List2 5 6]).
Proof. vm_compute. reflexivity. Qed.

Example main_7_3 :
  files (main "out.csv" (Some 7) (Some 3)
           (Env (λ w i, if decide (i < w + 1)%nat then 3 # 4 else 0)%Q
                (λ _, 1%nat) (λ _, None))
           empty_world).1 !! "out.csv"
  = Some (File ["chain_length"; "heads"; "tails"] [(1, 3, 1); (2, 2, 1)]).
Proof. vm_compute. reflexivity. Qed.

(** No trials: every batch is empty, so is the merged histogram, and
    [max] raises before the file is opened. *)
Example main_no_trials :
  main "out.csv" (Some 0) (Some 3) all_tails empty_world
  = (World ∅ [Started 0; Started 0; Started 0; PrintedTiming 0],
     Raise ValueError).
Proof. vm_compute. reflexivity. Qed.

Example main_no_workers :
  main "out.csv" (Some 7) (Some 0) all_tails empty_world
  = (empty_world, Raise ZeroDivisionError).
Proof. vm_compute. reflexivity. Qed.

(** The directory of the output path is missing: the worker has run, and
    [open] raises; no file is written. *)
Example main_no_directory :
  main "nodir/out.csv" (Some 1) (Some 1) no_directory empty_world
  = (World ∅ [Started 1; PrintedTiming 1], Raise FileNotFoundError).
Proof. vm_compute. reflexivity. Qed.

Example main_nul_in_path :
  main "out.csv" (Some 1) (Some 1) nul_in_path empty_world
  = (World ∅ [Started 1; PrintedTiming 1], Raise ValueError).
Proof. vm_compute. reflexivity. Qed.

(** *** Properties of the batch splitter *)

Lemma sum_Z_app (l1 l2 : list Z) : sum_Z (l1 ++ l2) = sum_Z l1 + sum_Z l2.
Proof.
  unfold sum_Z. induction l1 as [|x l1 IH]; simpl; [done|]. rewrite IH. lia.
Qed.

Lemma range_succ (k : nat) :
  range (Z.of_nat (S k)) = range (Z.of_nat k) ++ [Z.of_nat k].
Proof.
  unfold range. replace (Z.of_nat (S k)) with (Z.of_nat k + 1) by lia.
  rewrite seqZ_app by lia. simpl. f_equal.
Qed.

(** The sizes handed out to the first [k] workers add up to [k] times the
    base size plus one for each of them that ranks below the remainder. *)
Lemma sum_batches_prefix (b r : Z) (k : nat) :
  sum_Z ((λ i, b + Z.b2z (i <? r)) <$> range (Z.of_nat k))
  = Z.of_nat k * b + Z.min (Z.of_nat k) (Z.max 0 r).
Proof.
  induction k as [|k IH].
  - simpl. lia.
  - rewrite range_succ, fmap_app, sum_Z_app, IH. simpl.
    destruct (Z.ltb_spec (Z.of_nat k) r); simpl; lia.
Qed.

Lemma batch_size_lookup (b r n : Z) (i : nat) :
  Z.of_nat i < n →
  ((λ i, b + Z.b2z (i <? r)) <$> range n) !! i
  = Some (b + Z.b2z (Z.of_nat i <? r)).
Proof.
  intros Hi. rewrite list_lookup_fmap. unfold range.
  rewrite lookup_seqZ_lt by done. simpl. do 3 f_equal.
Qed.

Lemma batch_size_lookup_inv (b r n : Z) (i : nat) (x : Z) :
  ((λ i, b + Z.b2z (i <? r)) <$> range n) !! i = Some x →
  Z.of_nat i < n ∧ x = b + Z.b2z (Z.of_nat i <? r).
Proof.
  intros H. rewrite list_lookup_fmap in H. unfold range in H.
  destruct (seqZ 0 n !! i) as [y|] eqn:Hy; [|done].
  apply lookup_seqZ in Hy as [-> ?]. simpl in H. by simplify_eq.
Qed.

Lemma batch_sizes_length (num_trials num_workers : Z) (sizes : list Z) :
  yield_worker_batch_sizes num_trials num_workers = Ok sizes →
  length sizes = Z.to_nat num_workers.
Proof.
  unfold yield_worker_batch_sizes.
  destruct (decide (num_workers = 0)); [done|]. intros [= <-].
  rewrite length_fmap. unfold range. apply length_seqZ.
Qed.

Lemma batch_sizes_sum (num_trials num_workers : Z) (sizes : list Z) :
  0 ≤ num_trials → 1 ≤ num_workers →
  yield_worker_batch_sizes num_trials num_workers = Ok sizes →
  sum_Z sizes = num_trials.
Proof.
  intros Hn Hw. unfold yield_worker_batch_sizes.
  destruct (decide (num_workers = 0)); [done|]. intros [= <-].
  pose proof (Z.mod_pos_bound num_trials num_workers ltac:(lia)) as Hm.
  rewrite Z.mod_eq in Hm by lia.
  set (b := num_trials `div` num_workers) in *.
  set (r := num_trials - b * num_workers).
  replace num_workers with (Z.of_nat (Z.to_nat num_workers)) by lia.
  rewrite sum_batches_prefix. lia.
Qed.

(** C1. For [total_trials >= 0] and [worker_count >= 1] the batch splitter
    yields exactly [worker_count] sizes that add up to [total_trials]; with
    [base = total_trials // worker_count] and
    [remainder = total_trials - base * worker_count], the first [remainder]
    sizes are [base + 1] and the others are [base]; so the sizes never
    increase and any two differ by at most one.  For 7 trials and 3
    workers the sizes are 3, 2, 2. *)
Theorem yield_worker_batch_sizes_spec (total_trials worker_count : Z) :
  0 ≤ total_trials → 1 ≤ worker_count →
  let base := total_trials `div` worker_count in
  let remainder := total_trials - base * worker_count in
  ∃ sizes : list Z,
    yield_worker_batch_sizes total_trials worker_count = Ok sizes
    ∧ Z.of_nat (length sizes) = worker_count
    ∧ sum_Z sizes = total_trials
    ∧ 0 ≤ remainder < worker_count
    ∧ (∀ i : nat, Z.of_nat i < remainder → sizes !! i = Some (base + 1))
    ∧ (∀ i : nat, remainder ≤ Z.of_nat i < worker_count →
         sizes !! i = Some base)
    ∧ (∀ (i j : nat) (x y : Z), (i ≤ j)%nat →
         sizes !! i = Some x → sizes !! j = Some y → y ≤ x)
    ∧ (∀ (i j : nat) (x y : Z),
         sizes !! i = Some x → sizes !! j = Some y → Z.abs (x - y) ≤ 1)
    ∧ yield_worker_batch_sizes 7 3 = Ok [3; 2; 2].
Proof.
  intros Htot Hw base remainder.
  assert (Hrem : 0 ≤ remainder < worker_count).
  { subst base remainder.
    pose proof (Z.mod_pos_bound total_trials worker_count ltac:(lia)) as Hm.
    rewrite Z.mod_eq in Hm by lia. lia. }
  eexists. unfold yield_worker_batch_sizes.
  destruct (decide (worker_count = 0)) as [->|_]; [lia|].
  fold base. fold remainder. split; [reflexivity|].
  split; [|split; [|split; [done|]]].
  - rewrite length_fmap. unfold range. rewrite length_seqZ. lia.
  - replace worker_count with (Z.of_nat (Z.to_nat worker_count)) at 1 by lia.
    rewrite sum_batches_prefix. subst remainder. lia.
  - repeat split.
    + intros i Hi. rewrite batch_size_lookup by lia.
      destruct (Z.ltb_spec (Z.of_nat i) remainder); simpl; [done|lia].
    + intros i Hi. rewrite batch_size_lookup by lia.
      destruct (Z.ltb_spec (Z.of_nat i) remainder); simpl; [lia|f_equal; lia].
    + intros i j x y Hij [_ ->]%batch_size_lookup_inv
        [_ ->]%batch_size_lookup_inv.
      destruct (Z.ltb_spec (Z.of_nat i) remainder),
        (Z.ltb_spec (Z.of_nat j) remainder); simpl; lia.
    + intros i j x y [_ ->]%batch_size_lookup_inv
        [_ ->]%batch_size_lookup_inv.
      destruct (Z.ltb_spec (Z.of_nat i) remainder),
        (Z.ltb_spec (Z.of_nat j) remainder); simpl; lia.
Qed.

Lemma yield_worker_batch_sizes_spec_witness :
  ∃ sizes : list Z,
    yield_worker_batch_sizes 10 4 = Ok sizes
    ∧ Z.of_nat (length sizes) = 4
    ∧ sum_Z sizes = 10.
Proof.
  destruct (yield_worker_batch_sizes_spec 10 4 ltac:(lia) ltac:(lia))
    as (sizes & H1 & H2 & H3 & _).
  exists sizes. auto.
Defined.


(** ** Sums over a histogram *)

Section sum_over.
Context (f : Z * Z → Z).

Lemma sum_over_empty : sum_over f ∅ = 0.
Proof. apply map_fold_empty. Qed.

Lemma sum_over_insert_None (k : Z) (c : Z * Z) (m : gmap Z (Z * Z)) :
  m !! k = None → sum_over f (<[k := c]> m) = f c + sum_over f m.
Proof.
  intros Hk. unfold sum_over.
  rewrite map_fold_insert_L; [done| |done]. intros; lia.
Qed.

(** Replacing an entry replaces its contribution to the sum. *)
Lemma sum_over_insert (k : Z) (c : Z * Z) (m : gmap Z (Z * Z)) :
  sum_over f (<[k := c]> m)
  = sum_over f m - from_option f 0 (m !! k) + f c.
Proof.
  destruct (m !! k) as [c0|] eqn:Hk; simpl.
  - rewrite <- (insert_delete_eq m k c).
    rewrite <- (insert_delete_id m k c0 Hk) at 2.
    rewrite !sum_over_insert_None by apply lookup_delete_eq. lia.
  - rewrite sum_over_insert_None by done. lia.
Qed.

Lemma sum_over_singleton (k : Z) (c : Z * Z) :
  sum_over f ({[ k := c ]} : gmap Z (Z * Z)) = f c.
Proof.
  rewrite <- insert_empty, sum_over_insert_None by apply lookup_empty.
  rewrite sum_over_empty. lia.
Qed.
End sum_over.

(** ** Draws and flips *)

(** Every sequence of flip outcomes is the one some generator produces,
    with draws in [0, 1): what holds for all generators holds for all
    sequences of outcomes. *)
Lemma flip_coin_realised (flips : nat → coin) :
  ∃ random : nat → Q,
    ∀ i, flip_coin (random i) = flips i
         ∧ (0 <= random i)%Q ∧ (random i < 1)%Q.
Proof.
  exists (λ i, match flips i with Heads => 1 # 2 | Tails => 0 end)%Q.
  intros i. destruct (flips i); split_and!; try reflexivity; by vm_compute.
Qed.

(** ** The trial runner's loop *)

Lemma run_trials_nonpos (num_trials : Z) (random : nat → Q) :
  num_trials ≤ 0 → run_trials num_trials random = (∅, 1).
Proof.
  intros Hn. unfold run_trials.
  replace (Z.to_nat num_trials) with 0%nat by lia. reflexivity.
Qed.

(** One more trial is one more turn of the loop, on the next draw. *)
Lemma run_trials_succ (n : nat) (random : nat → Q) :
  run_trials (Z.of_nat (S n)) random
  = trial (run_trials (Z.of_nat n) random) (random n).
Proof.
  unfold run_trials. rewrite !Nat2Z.id, seq_S, fmap_app, foldl_app.
  reflexivity.
Qed.

(** Induction along the loop: a property of the initial state that every
    turn preserves holds of the state after any number of turns. *)
Lemma run_trials_ind (random : nat → Q)
    (P : nat → gmap Z (Z * Z) * Z → Prop) :
  P 0%nat (∅, 1) →
  (∀ n st, st = run_trials (Z.of_nat n) random → P n st →
           P (S n) (trial st (random n))) →
  ∀ n, P n (run_trials (Z.of_nat n) random).
Proof.
  intros H0 Hstep n. induction n as [|n IH].
  - exact H0.
  - rewrite run_trials_succ. by apply Hstep.
Qed.

Lemma max_list_snoc (l : list Z) (x : Z) :
  foldr Z.max 0 (l ++ [x]) = Z.max (foldr Z.max 0 l) x.
Proof. induction l as [|y l IH]; simpl; [|rewrite IH]; lia. Qed.

Lemma max_streak_succ (n : nat) (random : nat → Q) :
  max_streak (Z.of_nat (S n)) random
  = Z.max (max_streak (Z.of_nat n) random) (counter_at random n).
Proof.
  unfold max_streak. rewrite !Nat2Z.id, seq_S, fmap_app.
  exact (max_list_snoc _ _).
Qed.

Lemma max_streak_nonpos (num_trials : Z) (random : nat → Q) :
  num_trials ≤ 0 → max_streak num_trials random = 0.
Proof.
  intros Hn. unfold max_streak.
  replace (Z.to_nat num_trials) with 0%nat by lia. reflexivity.
Qed.

(** The key a turn writes to, and what it does to the rest. *)
Lemma trial_fst_lookup_ne (hc : gmap Z (Z * Z)) (counter : Z) (draw : Q) (k : Z) :
  k ≠ counter → (trial (hc, counter) draw).1 !! k = hc !! k.
Proof.
  intros Hk. unfold trial. destruct (flip_coin draw); simpl;
    by rewrite lookup_insert_ne.
Qed.

Lemma trial_fst_lookup_eq (hc : gmap Z (Z * Z)) (counter : Z) (draw : Q) :
  (trial (hc, counter) draw).1 !! counter
  = Some (match flip_coin draw with
          | Heads => ((get_chain hc counter).1 + 1, (get_chain hc counter).2)
          | Tails => ((get_chain hc counter).1, (get_chain hc counter).2 + 1)
          end).
Proof.
  unfold trial, get_chain. destruct (flip_coin draw); simpl;
    by rewrite lookup_insert_eq.
Qed.

Lemma trial_snd (hc : gmap Z (Z * Z)) (counter : Z) (draw : Q) :
  (trial (hc, counter) draw).2
  = match flip_coin draw with Heads => counter + 1 | Tails => 1 end.
Proof. unfold trial. by destruct (flip_coin draw). Qed.

(** The counter is a streak length: it never drops below 1. *)
Lemma counter_pos (n : nat) (random : nat → Q) :
  1 ≤ (run_trials (Z.of_nat n) random).2.
Proof.
  apply (run_trials_ind random (λ _ st, 1 ≤ st.2)); [simpl; lia|].
  intros m [hc c] _ Hc. rewrite trial_snd. simpl in Hc.
  destruct (flip_coin _); lia.
Qed.

(** Counts are never negative, and an entry of the dictionary has been
    incremented at least once. *)
Lemma entries_counted (n : nat) (random : nat → Q) (k : Z) (c : Z * Z) :
  (run_trials (Z.of_nat n) random).1 !! k = Some c →
  0 ≤ c.1 ∧ 0 ≤ c.2 ∧ 1 ≤ c.1 + c.2.
Proof.
  revert k c.
  apply (run_trials_ind random
           (λ _ st, ∀ k c, st.1 !! k = Some c → 0 ≤ c.1 ∧ 0 ≤ c.2 ∧ 1 ≤ c.1 + c.2)).
  { intros k c. simpl. by rewrite lookup_empty. }
  intros m [hc cnt] _ IH k c. simpl in IH.
  destruct (decide (k = cnt)) as [->|Hne].
  - rewrite trial_fst_lookup_eq. intros [= <-].
    unfold get_chain. destruct (hc !! cnt) as [c0|] eqn:Hc0; simpl.
    + specialize (IH _ _ Hc0). destruct (flip_coin _); simpl; lia.
    + destruct (flip_coin _); simpl; lia.
  - rewrite trial_fst_lookup_ne by done. apply IH.
Qed.

(** Every turn adds exactly one flip to the histogram. *)
Lemma total_flips_trial (hc : gmap Z (Z * Z)) (counter : Z) (draw : Q) :
  total_flips (trial (hc, counter) draw).1 = total_flips hc + 1.
Proof.
  unfold total_flips, trial.
  destruct (flip_coin draw); simpl; rewrite sum_over_insert;
    destruct (hc !! counter) as [[h t]|]; simpl; lia.
Qed.

Lemma total_flips_run (n : nat) (random : nat → Q) :
  total_flips (run_trials (Z.of_nat n) random).1 = Z.of_nat n.
Proof.
  apply (run_trials_ind random (λ n st, total_flips st.1 = Z.of_nat n)).
  { apply sum_over_empty. }
  intros m [hc cnt] _ IH. rewrite total_flips_trial. simpl in IH. lia.
Qed.

(** The keys are the streak lengths 1 .. [max_streak], and the counter is
    at most one past the longest streak seen. *)
Lemma keys_contiguous (n : nat) (random : nat → Q) :
  (∀ k, is_Some ((run_trials (Z.of_nat n) random).1 !! k)
        ↔ 1 ≤ k ≤ max_streak (Z.of_nat n) random)
  ∧ (run_trials (Z.of_nat n) random).2 ≤ max_streak (Z.of_nat n) random + 1.
Proof.
  induction n as [|n [IHk IHc]].
  - rewrite run_trials_nonpos, max_streak_nonpos by lia. simpl.
    split; [|lia]. intros k. rewrite lookup_empty.
    split; [by intros [? ?]|lia].
  - rewrite run_trials_succ, max_streak_succ. unfold counter_at.
    pose proof (counter_pos n random) as Hpos.
    destruct (run_trials (Z.of_nat n) random) as [hc cnt].
    cbn [fst snd] in *. split.
    + intros k. destruct (decide (k = cnt)) as [->|Hne].
      * rewrite trial_fst_lookup_eq. split; [lia|eauto].
      * rewrite trial_fst_lookup_ne by done. rewrite IHk. lia.
    + rewrite trial_snd. destruct (flip_coin _); lia.
Qed.

Lemma run_trials_to_nat (num_trials : Z) (random : nat → Q) :
  run_trials num_trials random
  = run_trials (Z.of_nat (Z.to_nat num_trials)) random.
Proof. unfold run_trials. by rewrite Nat2Z.id. Qed.

Lemma max_streak_to_nat (num_trials : Z) (random : nat → Q) :
  max_streak num_trials random
  = max_streak (Z.of_nat (Z.to_nat num_trials)) random.
Proof. unfold max_streak. by rewrite Nat2Z.id. Qed.

(** The counter is the length of the current streak: one more after
    heads, back to 1 after tails. *)
Lemma counter_at_succ (random : nat → Q) (i : nat) :
  counter_at random (S i)
  = match flip_coin (random i) with
    | Heads => counter_at random i + 1
    | Tails => 1
    end.
Proof.
  unfold counter_at. rewrite run_trials_succ.
  destruct (run_trials (Z.of_nat i) random) as [hc cnt]. apply trial_snd.
Qed.

(** [max_streak] is the largest value the counter had at a flip. *)
Lemma max_streak_upper (num_trials : Z) (random : nat → Q) (i : nat) :
  (i < Z.to_nat num_trials)%nat →
  counter_at random i ≤ max_streak num_trials random.
Proof.
  rewrite max_streak_to_nat. generalize (Z.to_nat num_trials). intros n.
  induction n as [|n IH]; [lia|]. intros Hi. rewrite max_streak_succ.
  destruct (decide (i = n)) as [->|Hne]; [lia|].
  etrans; [apply IH; lia|lia].
Qed.

Lemma max_streak_attained (num_trials : Z) (random : nat → Q) :
  1 ≤ num_trials →
  ∃ i, (i < Z.to_nat num_trials)%nat
       ∧ counter_at random i = max_streak num_trials random.
Proof.
  rewrite max_streak_to_nat. intros Hn.
  assert (Hpos : (0 < Z.to_nat num_trials)%nat) by lia.
  revert Hpos. generalize (Z.to_nat num_trials). intros n.
  induction n as [|n IH]; [lia|]. intros _. rewrite max_streak_succ.
  destruct (Z.max_spec (max_streak (Z.of_nat n) random) (counter_at random n))
    as [[_ ->]|[Hle ->]].
  - exists n. split; [lia|done].
  - destruct n as [|n].
    + exists 0%nat. split; [lia|]. rewrite max_streak_nonpos in Hle |- * by lia.
      pose proof (counter_pos 0 random). unfold counter_at in *. lia.
    + destruct IH as (i & Hi & Heq); [lia|]. exists i. split; [lia|done].
Qed.

(** Tails are counted one at a time. *)
Lemma total_tails_trial (hc : gmap Z (Z * Z)) (counter : Z) (draw : Q) :
  total_tails (trial (hc, counter) draw).1
  = total_tails hc
    + match flip_coin draw with Heads => 0 | Tails => 1 end.
Proof.
  unfold total_tails, trial.
  destruct (flip_coin draw); simpl; rewrite sum_over_insert;
    destruct (hc !! counter) as [[h t]|]; simpl; lia.
Qed.

Lemma get_chain_trial (hc : gmap Z (Z * Z)) (counter : Z) (draw : Q) (k : Z) :
  get_chain (trial (hc, counter) draw).1 k
  = if decide (k = counter) then
      match flip_coin draw with
      | Heads => ((get_chain hc k).1 + 1, (get_chain hc k).2)
      | Tails => ((get_chain hc k).1, (get_chain hc k).2 + 1)
      end
    else get_chain hc k.
Proof.
  unfold get_chain at 1. destruct (decide (k = counter)) as [->|Hne].
  - by rewrite trial_fst_lookup_eq.
  - by rewrite trial_fst_lookup_ne.
Qed.

(** Every flip counted against a streak of length 1 is the first flip or
    follows a tail: while the counter is at 1 the flips at key 1 are one
    ahead of the tails, otherwise they are level. *)
Lemma flips_at_1_run (n : nat) (random : nat → Q) :
  let st := run_trials (Z.of_nat n) random in
  heads_at st.1 1 + tails_at st.1 1 + Z.b2z (st.2 =? 1)
  = total_tails st.1 + 1.
Proof.
  pose proof (counter_pos n random) as Hpos. revert Hpos.
  induction n as [|n IH]; intros Hpos; [done|].
  specialize (IH (counter_pos n random)).
  pose proof (counter_pos n random) as Hc.
  rewrite run_trials_succ in Hpos |- *.
  destruct (run_trials (Z.of_nat n) random) as [hc cnt].
  cbn zeta in *. cbn [fst snd] in IH, Hc.
  unfold heads_at, tails_at in *.
  rewrite total_tails_trial, get_chain_trial, trial_snd.
  destruct (decide (1 = cnt)) as [<-|Hne].
  - simpl in IH. destruct (flip_coin _); simpl; lia.
  - replace (cnt =? 1) with false in IH by (symmetry; apply Z.eqb_neq; lia).
    destruct (flip_coin _); simpl in *.
    + replace (cnt + 1 =? 1) with false by (symmetry; apply Z.eqb_neq; lia).
      simpl. lia.
    + lia.
Qed.

(** After the loop the counter is back at 1 unless the last flip was
    heads. *)
Lemma counter_final (num_trials : Z) (random : nat → Q) :
  ((run_trials num_trials random).2 =? 1)
  = negb (ended_on_heads num_trials random).
Proof.
  unfold ended_on_heads. destruct (decide (1 ≤ num_trials)) as [Hn|Hn].
  - rewrite bool_decide_eq_true_2 by done. rewrite run_trials_to_nat.
    destruct (Z.to_nat num_trials) as [|n] eqn:Hnat; [lia|].
    rewrite run_trials_succ. pose proof (counter_pos n random) as Hc.
    destruct (run_trials (Z.of_nat n) random) as [hc cnt].
    rewrite trial_snd. simpl in Hc |- *. rewrite Nat.sub_0_r.
    destruct (flip_coin (random n)); simpl; [|done].
    apply Z.eqb_neq. lia.
  - rewrite bool_decide_eq_false_2 by done.
    by rewrite run_trials_nonpos by lia.
Qed.

(** A head at key 1 opens a streak; the streak is closed by a tail at a
    longer length, or is still open at the end. *)
Lemma perform_trials_heads_at_1 (num_trials : Z) (random : nat → Q) :
  heads_at (perform_trials num_trials random) 1
  = total_tails (perform_trials num_trials random)
    - tails_at (perform_trials num_trials random) 1
    + Z.b2z (ended_on_heads num_trials random).
Proof.
  pose proof (flips_at_1_run (Z.to_nat num_trials) random) as H.
  cbn zeta in H. rewrite <- run_trials_to_nat, counter_final in H.
  unfold perform_trials. destruct (ended_on_heads num_trials random);
    simpl in H |- *; lia.
Qed.

(** ** The result merger on values *)

(** After one trial result is folded in, every key holds the sum of what
    the two dictionaries hold under it. *)
Lemma merge_into_lookup (d tr : gmap Z (Z * Z)) (k : Z) :
  merge_into d tr !! k = union_with add_chain (d !! k) (tr !! k).
Proof.
  revert k. unfold merge_into.
  apply (map_fold_weak_ind
           (λ r (m : gmap Z (Z * Z)),
              ∀ k, r !! k = union_with add_chain (d !! k) (m !! k))).
  - intros k. rewrite lookup_empty. by destruct (d !! k).
  - intros i x m r Hi IH k. unfold merge_item.
    destruct (decide (k = i)) as [->|Hne].
    + rewrite lookup_insert_eq. specialize (IH i). rewrite Hi in IH.
      destruct (r !! i) as [dk|] eqn:Hr.
      * rewrite lookup_insert_eq. destruct (d !! i); by simplify_eq/=.
      * rewrite lookup_insert_eq. by destruct (d !! i).
    + rewrite (lookup_insert_ne m) by done. rewrite <- IH.
      destruct (r !! i); by rewrite lookup_insert_ne.
Qed.

Lemma merge_into_union_with (d tr : gmap Z (Z * Z)) :
  merge_into d tr = union_with add_chain d tr.
Proof.
  apply map_eq. intros k. by rewrite merge_into_lookup, lookup_union_with.
Qed.

Lemma merge_into_empty_r (d : gmap Z (Z * Z)) : merge_into d ∅ = d.
Proof. reflexivity. Qed.

Lemma merge_into_empty_l (tr : gmap Z (Z * Z)) : merge_into ∅ tr = tr.
Proof. rewrite merge_into_union_with. apply (left_id _ _). Qed.

Lemma merge_into_comm (a b : gmap Z (Z * Z)) :
  merge_into a b = merge_into b a.
Proof.
  rewrite !merge_into_union_with. apply union_with_comm.
  intros _ [h1 t1] [h2 t2] _ _. unfold add_chain. simpl. do 2 f_equal; lia.
Qed.

Lemma merge_into_assoc (a b c : gmap Z (Z * Z)) :
  merge_into (merge_into a b) c = merge_into a (merge_into b c).
Proof.
  apply map_eq. intros k. rewrite !merge_into_lookup.
  destruct (a !! k) as [[h1 t1]|], (b !! k) as [[h2 t2]|],
    (c !! k) as [[h3 t3]|]; simpl; try done.
  unfold add_chain. simpl. do 2 f_equal; lia.
Qed.

Lemma merge_trials_nil : merge_trials [] = ∅.
Proof. reflexivity. Qed.

Lemma merge_trials_snoc (trs : list (gmap Z (Z * Z))) (tr : gmap Z (Z * Z)) :
  merge_trials (trs ++ [tr]) = merge_into (merge_trials trs) tr.
Proof. unfold merge_trials. by rewrite foldl_app. Qed.

(** The order in which the trial results are folded in does not matter. *)
Lemma foldl_merge_into_perm (l1 l2 : list (gmap Z (Z * Z))) :
  l1 ≡ₚ l2 → ∀ d, foldl merge_into d l1 = foldl merge_into d l2.
Proof.
  intros Hp.
  induction Hp as [|x l1 l2 Hp IH|x y l|l1 l2 l3 Hp1 IH1 Hp2 IH2];
    intros d; simpl.
  - done.
  - apply IH.
  - f_equal. rewrite !merge_into_assoc. f_equal. apply merge_into_comm.
  - by rewrite IH1.
Qed.

Lemma merge_trials_perm (l1 l2 : list (gmap Z (Z * Z))) :
  l1 ≡ₚ l2 → merge_trials l1 = merge_trials l2.
Proof. intros Hp. by apply foldl_merge_into_perm. Qed.

Lemma merge_trials_cons (tr : gmap Z (Z * Z)) (trs : list (gmap Z (Z * Z))) :
  merge_trials (tr :: trs) = merge_into tr (merge_trials trs).
Proof.
  rewrite (merge_trials_perm (tr :: trs) (trs ++ [tr])).
  - rewrite merge_trials_snoc. apply merge_into_comm.
  - by rewrite Permutation_app_comm.
Qed.

Lemma get_chain_merge_into (d tr : gmap Z (Z * Z)) (k : Z) :
  get_chain (merge_into d tr) k
  = ((get_chain d k).1 + (get_chain tr k).1,
     (get_chain d k).2 + (get_chain tr k).2).
Proof.
  unfold get_chain. rewrite merge_into_lookup.
  destruct (d !! k) as [[h1 t1]|], (tr !! k) as [[h2 t2]|]; simpl;
    f_equal; lia.
Qed.

Lemma dom_merge_into (d tr : gmap Z (Z * Z)) :
  dom (merge_into d tr) = dom d ∪ dom tr.
Proof.
  apply set_eq. intros k.
  rewrite elem_of_union, !elem_of_dom, merge_into_lookup.
  destruct (d !! k), (tr !! k); simpl; unfold add_chain;
    rewrite !is_Some_alt; tauto.
Qed.

Lemma dom_merge_trials (trs : list (gmap Z (Z * Z))) :
  dom (merge_trials trs) = ⋃ (dom <$> trs).
Proof.
  induction trs as [|tr trs IH].
  - rewrite merge_trials_nil. simpl. apply dom_empty_L.
  - rewrite merge_trials_cons, dom_merge_into, IH. reflexivity.
Qed.

Lemma get_chain_merge_trials (trs : list (gmap Z (Z * Z))) (k : Z) :
  get_chain (merge_trials trs) k
  = (sum_Z ((λ tr, heads_at tr k) <$> trs),
     sum_Z ((λ tr, tails_at tr k) <$> trs)).
Proof.
  induction trs as [|tr trs IH].
  - rewrite merge_trials_nil. unfold get_chain. by rewrite lookup_empty.
  - rewrite merge_trials_cons, get_chain_merge_into, IH. reflexivity.
Qed.

(** Sums over a merged histogram are the sums over its parts. *)
Lemma sum_over_merge_into (f : Z * Z → Z) (d tr : gmap Z (Z * Z)) :
  (∀ a b, f (a.1 + b.1, a.2 + b.2) = f a + f b) →
  sum_over f (merge_into d tr) = sum_over f d + sum_over f tr.
Proof.
  intros Hf. unfold merge_into.
  apply (map_fold_weak_ind
           (λ r (m : gmap Z (Z * Z)),
              sum_over f r = sum_over f d + sum_over f m)).
  - rewrite sum_over_empty. lia.
  - intros i x m r Hi IH. rewrite (sum_over_insert_None f i x m Hi).
    unfold merge_item. destruct (r !! i) as [dk|] eqn:Hr.
    + rewrite sum_over_insert, Hr, Hf. simpl. lia.
    + rewrite sum_over_insert_None by done. lia.
Qed.

Lemma sum_over_merge_trials (f : Z * Z → Z) (trs : list (gmap Z (Z * Z))) :
  (∀ a b, f (a.1 + b.1, a.2 + b.2) = f a + f b) →
  sum_over f (merge_trials trs) = sum_Z (sum_over f <$> trs).
Proof.
  intros Hf. induction trs as [|tr trs IH].
  - rewrite merge_trials_nil. apply sum_over_empty.
  - rewrite merge_trials_cons, sum_over_merge_into, IH by done. reflexivity.
Qed.

(** C2. The merged histogram is the element-wise sum of the inputs: its
    keys are the union of the inputs' keys, and under each of them it holds
    the sum of the heads and the sum of the tails of all inputs, an input
    without the key counting as (0, 0). *)
Theorem merge_trials_elementwise_sum (trial_results : list (gmap Z (Z * Z))) :
  dom (merge_trials trial_results) = ⋃ (dom <$> trial_results)
  ∧ ∀ k : Z, k ∈ ⋃ (dom <$> trial_results) →
      merge_trials trial_results !! k
      = Some (sum_Z ((λ tr, (default (0, 0) (tr !! k)).1) <$> trial_results),
              sum_Z ((λ tr, (default (0, 0) (tr !! k)).2) <$> trial_results)).
Proof.
  split; [apply dom_merge_trials|].
  intros k Hk. rewrite <- dom_merge_trials in Hk.
  apply elem_of_dom in Hk as [c Hc].
  pose proof (get_chain_merge_trials trial_results k) as Hsum.
  unfold get_chain at 1 in Hsum. rewrite Hc in Hsum. simpl in Hsum.
  by rewrite Hc, Hsum.
Qed.

Lemma merge_trials_elementwise_sum_witness :
  merge_trials [ {[ 1 := (2, 1); 2 := (1, 0) ]}; {[ 1 := (0, 3); 4 := (5, 6) ]} ]
    !! 1 = Some (2, 4).
Proof.
  rewrite (proj2 (merge_trials_elementwise_sum
    [ {[ 1 := (2, 1); 2 := (1, 0) ]}; {[ 1 := (0, 3); 4 := (5, 6) ]} ]) 1).
  - reflexivity.
  - apply (bool_decide_unpack _). vm_compute. exact I.
Defined.

(** C3. Merging is independent of order: it is commutative and
    associative, the merge of three histograms is the same however they
    are grouped or ordered, and the empty histogram is its identity. *)
Theorem merge_trials_order_independent (H1 H2 H3 : gmap Z (Z * Z)) :
  merge_trials [H1; H2] = merge_trials [H2; H1]
  ∧ merge_trials [merge_trials [H1; H2]; H3]
    = merge_trials [H1; merge_trials [H2; H3]]
  ∧ merge_trials [merge_trials [H1; H2]; H3] = merge_trials [H1; H2; H3]
  ∧ (∀ l, l ≡ₚ [H1; H2; H3] → merge_trials l = merge_trials [H1; H2; H3])
  ∧ merge_trials [H1; ∅] = H1
  ∧ merge_trials [∅; H1] = H1.
Proof.
  split; [|split; [|split; [|split; [|split]]]].
  - apply merge_trials_perm, Permutation_swap.
  - rewrite !merge_trials_cons, merge_trials_nil, !merge_into_empty_r.
    apply merge_into_assoc.
  - rewrite !merge_trials_cons, merge_trials_nil, !merge_into_empty_r.
    apply merge_into_assoc.
  - intros l Hl. by apply merge_trials_perm.
  - by rewrite !merge_trials_cons, merge_trials_nil, !merge_into_empty_r.
  - by rewrite !merge_trials_cons, merge_trials_nil, merge_into_empty_r,
      merge_into_empty_l.
Qed.

Lemma merge_trials_order_independent_witness :
  merge_trials [ {[ 3 := (1, 1) ]}; {[ 1 := (2, 0) ]}; {[ 1 := (0, 1) ]} ]
  = merge_trials [ {[ 1 := (0, 1) ]}; {[ 1 := (2, 0) ]}; {[ 3 := (1, 1) ]} ].
Proof.
  apply (merge_trials_order_independent
           {[ 1 := (0, 1) ]} {[ 1 := (2, 0) ]} {[ 3 := (1, 1) ]}).
  symmetry. apply (Permutation_rev [_; _; _]).
Defined.

(** ** The trial runner: what the histogram holds *)

(** C4. For [num_trials >= 0] the histogram of the trial runner counts
    exactly [num_trials] flips, whatever the draws: 5 for 5 trials, and 10
    after merging the histograms of the two batches of 10 trials split over
    2 workers.  For 0 trials the histogram is empty. *)
Theorem perform_trials_total_flips (num_trials : Z) (random random' : nat → Q) :
  0 ≤ num_trials →
  total_flips (perform_trials num_trials random) = num_trials
  ∧ total_flips (perform_trials 5 random) = 5
  ∧ yield_worker_batch_sizes 10 2 = Ok [5; 5]
  ∧ total_flips (merge_trials [perform_trials 5 random;
                               perform_trials 5 random']) = 10
  ∧ perform_trials 0 random = ∅.
Proof.
  intros Hn.
  assert (Htotal : ∀ n r, 0 ≤ n → total_flips (perform_trials n r) = n).
  { intros n r Hpos. unfold perform_trials.
    rewrite run_trials_to_nat, total_flips_run. lia. }
  split_and!.
  - by apply Htotal.
  - by apply Htotal.
  - reflexivity.
  - unfold total_flips at 1. rewrite sum_over_merge_trials by (intros; simpl; lia).
    simpl. fold total_flips. rewrite !Htotal by lia. reflexivity.
  - reflexivity.
Qed.

Lemma perform_trials_total_flips_witness :
  total_flips (perform_trials 3 (λ i, if decide (i < 2)%nat then 3 # 4 else 1 # 4)%Q)
  = 3.
Proof.
  apply (perform_trials_total_flips 3 _ (λ _, 0%Q)). lia.
Defined.

(** ** The store model *)

(** *** Dictionary entries *)

Lemma dict_lookup_elem (k : Z) (v : Store.loc) (items : list (Z * Store.loc)) :
  Store.dict_lookup k items = Some v → (k, v) ∈ items.
Proof.
  induction items as [|[k' v'] items IH]; simpl; [done|].
  destruct (decide (k = k')) as [->|Hne].
  - intros [= ->]. apply list_elem_of_here.
  - intros H. apply list_elem_of_further. by apply IH.
Qed.

Lemma dict_lookup_None (k : Z) (items : list (Z * Store.loc)) :
  Store.dict_lookup k items = None ↔ k ∉ items.*1.
Proof.
  induction items as [|[k' v'] items IH]; simpl.
  - split; [intros _; apply not_elem_of_nil|done].
  - rewrite not_elem_of_cons. destruct (decide (k = k')) as [->|Hne].
    + split; [done|]. by intros [? _].
    + rewrite IH. tauto.
Qed.

Lemma dict_lookup_value (k : Z) (v : Store.loc) (items : list (Z * Store.loc)) :
  Store.dict_lookup k items = Some v → v ∈ items.*2.
Proof.
  intros H%dict_lookup_elem. apply list_elem_of_fmap. by exists (k, v).
Qed.

(** A new key goes to the end. *)
Lemma dict_set_new (k : Z) (v : Store.loc) (items : list (Z * Store.loc)) :
  Store.dict_lookup k items = None →
  Store.dict_set k v items = items ++ [(k, v)].
Proof.
  induction items as [|[k' v'] items IH]; simpl; [done|].
  destruct (decide (k = k')); [done|]. intros H. by rewrite IH.
Qed.

Lemma dict_lookup_snoc (k k' : Z) (v : Store.loc) (items : list (Z * Store.loc)) :
  Store.dict_lookup k' (items ++ [(k, v)])
  = match Store.dict_lookup k' items with
    | Some x => Some x
    | None => if decide (k' = k) then Some v else None
    end.
Proof.
  induction items as [|[k0 v0] items IH]; simpl; [done|].
  by destruct (decide (k' = k0)).
Qed.

(** When no list is referred to twice, a list belongs to one key. *)
Lemma dict_lookup_inj (k1 k2 : Z) (v : Store.loc) (items : list (Z * Store.loc)) :
  NoDup items.*2 →
  Store.dict_lookup k1 items = Some v →
  Store.dict_lookup k2 items = Some v →
  k1 = k2.
Proof.
  induction items as [|[k0 v0] items IH]; simpl; [done|].
  intros [Hv0 Hnd]%NoDup_cons.
  destruct (decide (k1 = k0)) as [->|H1], (decide (k2 = k0)) as [->|H2];
    try done.
  - intros [= ->] H%dict_lookup_value. done.
  - intros H%dict_lookup_value [= ->]. done.
  - by apply IH.
Qed.

(** *** The value of a dictionary object *)

Lemma read_items_stands_for (s : Store.store) (items : list (Z * Store.loc))
    (m : gmap Z (Z * Z)) :
  Store.read_items s items = Some m → stands_for s items m.
Proof.
  revert m. induction items as [|[k v] items IH]; simpl; intros m.
  - intros [= <-] k. by rewrite lookup_empty.
  - destruct (Store.list_at s v) as [c|] eqn:Hc; [|done].
    destruct (Store.read_items s items) as [m0|]; [|done].
    intros [= <-] k'. simpl. destruct (decide (k' = k)) as [->|Hne].
    + by rewrite lookup_insert_eq.
    + rewrite lookup_insert_ne by done. by apply IH.
Qed.

Lemma read_items_values (s : Store.store) (items : list (Z * Store.loc))
    (m : gmap Z (Z * Z)) :
  Store.read_items s items = Some m →
  Forall (λ v, is_Some (Store.list_at s v)) items.*2.
Proof.
  revert m. induction items as [|[k v] items IH]; simpl; intros m.
  - intros _. apply Forall_nil_2.
  - destruct (Store.list_at s v) as [c|] eqn:Hc; [|done].
    destruct (Store.read_items s items) as [m0|]; [|done].
    intros _. apply Forall_cons; eauto.
Qed.

Lemma read_items_is_Some (s : Store.store) (items : list (Z * Store.loc)) :
  Forall (λ v, is_Some (Store.list_at s v)) items.*2 →
  is_Some (Store.read_items s items).
Proof.
  induction items as [|[k v] items IH]; simpl; [eauto|].
  intros [[c Hc] [m Hm]%IH]%Forall_cons. rewrite Hc, Hm. eauto.
Qed.

Lemma read_items_intro (s : Store.store) (items : list (Z * Store.loc))
    (m : gmap Z (Z * Z)) :
  Forall (λ v, is_Some (Store.list_at s v)) items.*2 →
  stands_for s items m →
  Store.read_items s items = Some m.
Proof.
  intros [m0 Hm0]%read_items_is_Some Hm. rewrite Hm0. f_equal.
  apply map_eq. intros k.
  by rewrite (read_items_stands_for _ _ _ Hm0 k), (Hm k).
Qed.

(** What a dictionary stands for depends only on the lists it refers to. *)
Lemma read_items_ext (s s' : Store.store) (items : list (Z * Store.loc)) :
  (∀ v, v ∈ items.*2 → Store.list_at s' v = Store.list_at s v) →
  Store.read_items s' items = Store.read_items s items.
Proof.
  induction items as [|[k v] items IH]; simpl; [done|]. intros H.
  rewrite (H v) by apply list_elem_of_here.
  rewrite IH; [done|]. intros v' Hv'. apply H. by apply list_elem_of_further.
Qed.

Lemma unchanged_refl (s : Store.store) : unchanged s s.
Proof. by intros l o. Qed.

Lemma unchanged_dict_at (s0 s : Store.store) (l : Store.loc)
    (items : list (Z * Store.loc)) :
  unchanged s0 s → Store.dict_at s0 l = Some items →
  Store.dict_at s l = Some items.
Proof.
  unfold Store.dict_at. intros Hun H.
  destruct (s0 !! l) as [o|] eqn:Ho; [|done]. by rewrite (Hun _ _ Ho).
Qed.

Lemma unchanged_list_at (s0 s : Store.store) (l : Store.loc) (c : Z * Z) :
  unchanged s0 s → Store.list_at s0 l = Some c → Store.list_at s l = Some c.
Proof.
  unfold Store.list_at. intros Hun H.
  destruct (s0 !! l) as [o|] eqn:Ho; [|done]. by rewrite (Hun _ _ Ho).
Qed.

(** A dictionary of [s0] and the lists it refers to keep their value. *)
Lemma unchanged_value_of (s0 s : Store.store) (d : Store.loc)
    (m : gmap Z (Z * Z)) :
  unchanged s0 s → Store.value_of s0 d = Some m → Store.value_of s d = Some m.
Proof.
  unfold Store.value_of. intros Hun H.
  destruct (Store.dict_at s0 d) as [items|] eqn:Hd; [|done].
  rewrite (unchanged_dict_at _ _ _ _ Hun Hd), <- H.
  apply read_items_ext. intros v Hv.
  pose proof (read_items_values _ _ _ H) as Hall.
  rewrite Forall_forall in Hall. destruct (Hall v Hv) as [c Hc].
  by rewrite Hc, (unchanged_list_at _ _ _ _ Hun Hc).
Qed.

(** *** Running the statements *)

Lemma bind_run {A B : Type} (m : Store.M A) (f : A → Store.M B)
    (s s' : list Store.obj) (a : A) :
  m s = Some (a, s') → (m ≫= f) s = f a s'.
Proof. unfold mbind, Store.M_bind. by intros ->. Qed.

Lemma put_run (l : nat) (o : Store.obj) (s : list Store.obj) :
  is_Some (s !! l) → Store.put l o s = Some ((), <[l := o]> s).
Proof.
  intros H%lookup_lt_is_Some. unfold Store.put.
  destruct (decide (l < length s)%nat); [done|lia].
Qed.

Lemma contains_run (d : nat) (k : Z) (s : list Store.obj)
    (items : list (Z * nat)) :
  Store.dict_at s d = Some items →
  Store.contains d k s
  = Some (bool_decide (is_Some (Store.dict_lookup k items)), s).
Proof.
  intros H. unfold Store.contains, mbind, Store.M_bind, Store.get_dict.
  by rewrite H.
Qed.

Lemma getitem_run (d : nat) (k : Z) (s : list Store.obj)
    (items : list (Z * nat)) (v : nat) :
  Store.dict_at s d = Some items → Store.dict_lookup k items = Some v →
  Store.getitem d k s = Some (v, s).
Proof.
  intros H Hk. unfold Store.getitem, mbind, Store.M_bind, Store.get_dict.
  by rewrite H, Hk.
Qed.

Lemma dict_at_Some (s : list Store.obj) (d : nat) (items : list (Z * nat)) :
  Store.dict_at s d = Some items ↔ s !! d = Some (Store.Dict items).
Proof.
  unfold Store.dict_at. destruct (s !! d) as [[]|]; naive_solver.
Qed.

Lemma list_at_Some (s : list Store.obj) (l : nat) (c : Z * Z) :
  Store.list_at s l = Some c ↔ s !! l = Some (Store.List2 c.1 c.2).
Proof.
  unfold Store.list_at. destruct c as [h t].
  destruct (s !! l) as [[]|]; naive_solver.
Qed.

Lemma setitem_run (d : nat) (k : Z) (v : nat) (s : list Store.obj)
    (items : list (Z * nat)) :
  Store.dict_at s d = Some items →
  Store.setitem d k v s
  = Some ((), <[d := Store.Dict (Store.dict_set k v items)]> s).
Proof.
  intros H. unfold Store.setitem, mbind, Store.M_bind, Store.get_dict.
  rewrite H. apply put_run. apply dict_at_Some in H. eauto.
Qed.

Lemma index0_run (l : nat) (s : list Store.obj) (c : Z * Z) :
  Store.list_at s l = Some c → Store.index0 l s = Some (c.1, s).
Proof.
  intros H. unfold Store.index0, mbind, Store.M_bind, Store.get_list.
  by rewrite H.
Qed.

Lemma index1_run (l : nat) (s : list Store.obj) (c : Z * Z) :
  Store.list_at s l = Some c → Store.index1 l s = Some (c.2, s).
Proof.
  intros H. unfold Store.index1, mbind, Store.M_bind, Store.get_list.
  by rewrite H.
Qed.

Lemma iadd0_run (l : nat) (x : Z) (s : list Store.obj) (c : Z * Z) :
  Store.list_at s l = Some c →
  Store.iadd0 l x s = Some ((), <[l := Store.List2 (c.1 + x) c.2]> s).
Proof.
  intros H. unfold Store.iadd0, mbind, Store.M_bind, Store.get_list.
  rewrite H. apply put_run. apply list_at_Some in H. eauto.
Qed.

Lemma iadd1_run (l : nat) (x : Z) (s : list Store.obj) (c : Z * Z) :
  Store.list_at s l = Some c →
  Store.iadd1 l x s = Some ((), <[l := Store.List2 c.1 (c.2 + x)]> s).
Proof.
  intros H. unfold Store.iadd1, mbind, Store.M_bind, Store.get_list.
  rewrite H. apply put_run. apply list_at_Some in H. eauto.
Qed.

Lemma copy_run (l : nat) (s : list Store.obj) (c : Z * Z) :
  Store.list_at s l = Some c →
  Store.copy l s = Some (length s, s ++ [Store.List2 c.1 c.2]).
Proof.
  intros H. unfold Store.copy, mbind, Store.M_bind, Store.get_list.
  by rewrite H.
Qed.

(** *** Reading the store after a change *)

Lemma list_at_app_new (s : list Store.obj) (h t : Z) :
  Store.list_at (s ++ [Store.List2 h t]) (length s) = Some (h, t).
Proof.
  unfold Store.list_at. rewrite lookup_app_r by lia.
  by rewrite Nat.sub_diag.
Qed.

Lemma list_at_app_old (s : list Store.obj) (o : Store.obj) (l : nat) :
  is_Some (Store.list_at s l) →
  Store.list_at (s ++ [o]) l = Store.list_at s l.
Proof.
  unfold Store.list_at. intros [c Hc].
  destruct (s !! l) as [o'|] eqn:Ho; [|done].
  by rewrite (lookup_app_l_Some _ _ _ _ Ho).
Qed.

Lemma list_at_insert_eq (s : list Store.obj) (l : nat) (h t : Z) :
  is_Some (s !! l) →
  Store.list_at (<[l := Store.List2 h t]> s) l = Some (h, t).
Proof.
  intros H%lookup_lt_is_Some. unfold Store.list_at.
  by rewrite list_lookup_insert_eq.
Qed.

Lemma list_at_insert_ne (s : list Store.obj) (l l' : nat) (o : Store.obj) :
  l ≠ l' → Store.list_at (<[l := o]> s) l' = Store.list_at s l'.
Proof.
  intros Hne. unfold Store.list_at. by rewrite list_lookup_insert_ne.
Qed.

Lemma list_at_insert_dict (s : list Store.obj) (d l : nat)
    (items items' : list (Z * nat)) :
  s !! d = Some (Store.Dict items) →
  Store.list_at (<[d := Store.Dict items']> s) l = Store.list_at s l.
Proof.
  intros Hd. destruct (decide (d = l)) as [<-|Hne].
  - unfold Store.list_at. rewrite Hd.
    rewrite list_lookup_insert_eq; [done|]. by eapply lookup_lt_Some.
  - by apply list_at_insert_ne.
Qed.

Lemma unchanged_app (s0 s : list Store.obj) (o : Store.obj) :
  unchanged s0 s → unchanged s0 (s ++ [o]).
Proof. intros Hun l o' H. apply lookup_app_l_Some. by apply Hun. Qed.

Lemma unchanged_insert (s0 s : list Store.obj) (l : nat) (o : Store.obj) :
  (length s0 ≤ l)%nat → unchanged s0 s → unchanged s0 (<[l := o]> s).
Proof.
  intros Hl Hun l' o' H. rewrite list_lookup_insert_ne; [by apply Hun|].
  apply lookup_lt_Some in H. lia.
Qed.

(** *** A dictionary under construction *)

Lemma stands_for_ext (s s' : list Store.obj) (items : list (Z * nat))
    (m : gmap Z (Z * Z)) :
  (∀ v, v ∈ items.*2 → Store.list_at s' v = Store.list_at s v) →
  stands_for s items m → stands_for s' items m.
Proof.
  intros Hext Hm k. rewrite (Hm k).
  destruct (Store.dict_lookup k items) as [v|] eqn:Hv; simpl; [|done].
  symmetry. apply Hext. by eapply dict_lookup_value.
Qed.

Section owns.
Context (s0 s : list Store.obj) (d : nat) (items : list (Z * nat)).
Context (m : gmap Z (Z * Z)).
Hypothesis Howns : owns s0 s d items m.

Lemma owns_dict_at : Store.dict_at s d = Some items.
Proof. apply dict_at_Some. apply Howns. Qed.

Lemma owns_unchanged : unchanged s0 s.
Proof. apply Howns. Qed.

Lemma owns_value_list (v : nat) :
  v ∈ items.*2 → (length s0 ≤ v)%nat ∧ is_Some (Store.list_at s v).
Proof.
  destruct Howns as (_ & _ & _ & _ & _ & Hall & _).
  rewrite Forall_forall in Hall. apply Hall.
Qed.

Lemma owns_lookup_Some (k : Z) (v : nat) :
  Store.dict_lookup k items = Some v →
  ∃ c, Store.list_at s v = Some c ∧ m !! k = Some c.
Proof.
  intros Hk. destruct (owns_value_list v) as [_ [c Hc]].
  { by eapply dict_lookup_value. }
  exists c. split; [done|].
  destruct Howns as (_ & _ & _ & _ & _ & _ & Hm). by rewrite (Hm k), Hk.
Qed.

Lemma owns_lookup_None (k : Z) :
  Store.dict_lookup k items = None → m !! k = None.
Proof.
  intros Hk. destruct Howns as (_ & _ & _ & _ & _ & _ & Hm).
  by rewrite (Hm k), Hk.
Qed.

Lemma owns_value_of : Store.value_of s d = Some m.
Proof.
  unfold Store.value_of. rewrite owns_dict_at.
  destruct Howns as (_ & _ & _ & _ & _ & Hall & Hm).
  apply read_items_intro; [|done].
  eapply Forall_impl; [exact Hall|]. by intros v [_ ?].
Qed.

(** The next object to be made is not yet referred to. *)
Lemma owns_next_fresh : (length s0 ≤ length s)%nat ∧ length s ∉ items.*2.
Proof.
  split.
  - destruct Howns as (_ & Hd & Hsd & _). apply lookup_lt_Some in Hsd. lia.
  - intros [_ [c Hc]]%owns_value_list. apply list_at_Some in Hc.
    apply lookup_lt_Some in Hc. lia.
Qed.

(** Making a new object changes nothing for the dictionary. *)
Lemma owns_alloc (o : Store.obj) : owns s0 (s ++ [o]) d items m.
Proof.
  destruct Howns as (Hun & Hd & Hsd & Hk & Hv & Hall & Hm).
  unfold owns; split_and!; try done.
  - by apply unchanged_app.
  - by apply lookup_app_l_Some.
  - apply Forall_forall. intros v Hv'.
    destruct (owns_value_list v Hv') as [? Hl].
    split; [done|]. by rewrite list_at_app_old.
  - apply (stands_for_ext s); [|done]. intros v Hv'.
    apply list_at_app_old. by apply owns_value_list.
Qed.

(** [d[k] = v] for a new key [k] and a list [v] not yet referred to. *)
Lemma owns_setitem_new (k : Z) (v : nat) (c : Z * Z) :
  Store.dict_lookup k items = None →
  Store.list_at s v = Some c → (length s0 ≤ v)%nat → v ∉ items.*2 →
  owns s0 (<[d := Store.Dict (Store.dict_set k v items)]> s) d
       (Store.dict_set k v items) (<[k := c]> m).
Proof.
  intros Hk Hc Hv0 Hfresh.
  destruct Howns as (Hun & Hd & Hsd & Hks & Hvs & Hall & Hm).
  rewrite dict_set_new by done.
  assert (Hlist : ∀ l, Store.list_at
            (<[d := Store.Dict (items ++ [(k, v)])]> s) l = Store.list_at s l).
  { intros l. by eapply list_at_insert_dict. }
  unfold owns; split_and!.
  - by apply unchanged_insert.
  - done.
  - apply list_lookup_insert_eq. by eapply lookup_lt_Some.
  - rewrite fmap_app. apply NoDup_app. split; [done|]. split.
    + intros x Hx ->%list_elem_of_singleton.
      by apply dict_lookup_None in Hk.
    + apply NoDup_singleton.
  - rewrite fmap_app. apply NoDup_app. split; [done|]. split.
    + by intros x Hx ->%list_elem_of_singleton.
    + apply NoDup_singleton.
  - rewrite fmap_app. apply Forall_app. split.
    + apply Forall_forall. intros v' Hv'. rewrite Hlist.
      by apply owns_value_list.
    + apply Forall_singleton. simpl. rewrite Hlist, Hc. eauto.
  - intros k'. rewrite dict_lookup_snoc.
    destruct (decide (k' = k)) as [->|Hne].
    + rewrite Hk, lookup_insert_eq. simpl. by rewrite Hlist.
    + rewrite lookup_insert_ne by done. rewrite (Hm k').
      destruct (Store.dict_lookup k' items); simpl; [|done].
      by rewrite Hlist.
Qed.

(** A write to the list stored under [k]. *)
Lemma owns_put_list (k : Z) (v : nat) (h t : Z) :
  Store.dict_lookup k items = Some v →
  owns s0 (<[v := Store.List2 h t]> s) d items (<[k := (h, t)]> m).
Proof.
  intros Hk.
  destruct Howns as (Hun & Hd & Hsd & Hks & Hvs & Hall & Hm).
  destruct (owns_lookup_Some k v Hk) as (c & Hc & Hmk).
  pose proof Hc as Hsv. apply list_at_Some in Hsv.
  destruct (owns_value_list v) as [Hv0 _]; [by eapply dict_lookup_value|].
  unfold owns; split_and!; try done.
  - by apply unchanged_insert.
  - rewrite list_lookup_insert_ne; [done|]. intros ->. congruence.
  - apply Forall_forall. intros v' Hv'.
    destruct (owns_value_list v' Hv') as [? Hl]. split; [done|].
    destruct (decide (v = v')) as [<-|Hne].
    + rewrite list_at_insert_eq; eauto.
    + by rewrite list_at_insert_ne.
  - intros k'. destruct (decide (k' = k)) as [->|Hne].
    + rewrite Hk, lookup_insert_eq. simpl.
      rewrite list_at_insert_eq; eauto.
    + rewrite lookup_insert_ne by done. rewrite (Hm k').
      destruct (Store.dict_lookup k' items) as [v'|] eqn:Hk'; simpl; [|done].
      rewrite list_at_insert_ne; [done|]. intros <-.
      apply Hne. by eapply dict_lookup_inj.
Qed.

End owns.

Lemma owns_init (s0 : list Store.obj) :
  owns s0 (s0 ++ [Store.Dict []]) (length s0) [] ∅.
Proof.
  unfold owns; split_and!.
  - apply unchanged_app, unchanged_refl.
  - done.
  - rewrite lookup_app_r by lia. by rewrite Nat.sub_diag.
  - apply NoDup_nil_2.
  - apply NoDup_nil_2.
  - apply Forall_nil_2.
  - intros k. by rewrite lookup_empty.
Qed.

Lemma dict_lookup_set_eq (k : Z) (v : nat) (items : list (Z * nat)) :
  Store.dict_lookup k (Store.dict_set k v items) = Some v.
Proof.
  induction items as [|[k' v'] items IH]; simpl.
  - by destruct (decide (k = k)).
  - destruct (decide (k = k')) as [->|Hne]; simpl.
    + by destruct (decide (k' = k')).
    + by destruct (decide (k = k')).
Qed.

(** *** The trial runner on objects *)

(** The first half of the loop body: after it, [chain] is the list stored
    under [counter], and that entry holds what the histogram had for
    [counter], or the new (0, 0). *)
Lemma store_trial_chain (s0 s : list Store.obj) (d : nat)
    (items : list (Z * nat)) (m : gmap Z (Z * Z)) (counter : Z) :
  owns s0 s d items m →
  ∃ chain s2 items2 m2,
    (∀ (B : Type) (rest : nat → Store.M B),
       (chain0 ← Store.new_list 0 0;
        present ← Store.contains d counter;
        chain ← (if present : bool then Store.getitem d counter
                 else Store.setitem d counter chain0 ;; mret chain0);
        rest chain) s
       = rest chain s2)
    ∧ owns s0 s2 d items2 m2
    ∧ Store.dict_lookup counter items2 = Some chain
    ∧ Store.list_at s2 chain = Some (get_chain m counter)
    ∧ ∀ x, <[counter := x]> m2 = <[counter := x]> m.
Proof.
  intros Howns.
  pose proof (owns_alloc _ _ _ _ _ Howns (Store.List2 0 0)) as Howns1.
  pose proof (owns_dict_at _ _ _ _ _ Howns1) as Hd1.
  assert (Hstart : ∀ (B : Type) (rest : bool → nat → Store.M B),
            (chain0 ← Store.new_list 0 0;
             present ← Store.contains d counter; rest present chain0) s
            = rest (bool_decide (is_Some (Store.dict_lookup counter items)))
                (length s) (s ++ [Store.List2 0 0])).
  { intros B rest.
    rewrite (bind_run _ _ s (s ++ [Store.List2 0 0]) (length s)) by done.
    by rewrite (bind_run _ _ _ _ _ (contains_run _ counter _ _ Hd1)). }
  unfold get_chain.
  destruct (Store.dict_lookup counter items) as [v|] eqn:Hk.
  - destruct (owns_lookup_Some _ _ _ _ _ Howns1 counter v Hk) as (c & Hc & Hm).
    exists v, (s ++ [Store.List2 0 0]), items, m.
    split_and!; try done.
    + intros B rest.
      rewrite (Hstart B (λ present chain0,
                 chain ← (if present : bool then Store.getitem d counter
                          else Store.setitem d counter chain0 ;; mret chain0);
                 rest chain)).
      rewrite bool_decide_eq_true_2 by eauto.
      by rewrite (bind_run _ _ _ _ _ (getitem_run _ _ _ items _ Hd1 Hk)).
    + by rewrite Hm.
  - destruct (owns_next_fresh _ _ _ _ _ Howns) as [Hlen Hfresh].
    pose proof (owns_setitem_new _ _ _ _ _ Howns1 counter (length s) (0, 0)
                  Hk (list_at_app_new s 0 0) Hlen Hfresh) as Howns2.
    rewrite (owns_lookup_None _ _ _ _ _ Howns counter Hk). simpl.
    eexists (length s), _, _, _. split_and!.
    + intros B rest.
      rewrite (Hstart B (λ present chain0,
                 chain ← (if present : bool then Store.getitem d counter
                          else Store.setitem d counter chain0 ;; mret chain0);
                 rest chain)).
      rewrite bool_decide_eq_false_2 by (by intros [? ?]).
      apply bind_run.
      by rewrite (bind_run _ _ _ _ _
                    (setitem_run d counter (length s) _ _ Hd1)).
    + exact Howns2.
    + apply dict_lookup_set_eq.
    + destruct (owns_lookup_Some _ _ _ _ _ Howns2 counter (length s)
                  (dict_lookup_set_eq _ _ _)) as (c & Hc & Hm).
      rewrite lookup_insert_eq in Hm. by simplify_eq.
    + intros x. apply insert_insert_eq.
Qed.

(** One turn of the loop on objects does to the dictionary what [trial]
    does to the histogram, and leaves the counter [trial] leaves. *)
Lemma store_trial_refines (s0 s : list Store.obj) (d : nat)
    (items : list (Z * nat)) (m : gmap Z (Z * Z)) (counter : Z) (draw : Q) :
  owns s0 s d items m →
  ∃ s' items',
    Store.trial d counter draw s = Some ((trial (m, counter) draw).2, s')
    ∧ owns s0 s' d items' (trial (m, counter) draw).1.
Proof.
  intros Howns.
  destruct (store_trial_chain s0 s d items m counter Howns)
    as (chain & s2 & items2 & m2 & Hrun & Howns2 & Hk & Hc & Hins).
  unfold Store.trial, trial. fold (get_chain m counter).
  rewrite Hrun. destruct (flip_coin draw); simpl.
  - rewrite (bind_run _ _ _ _ _ (iadd0_run chain 1 _ _ Hc)).
    eexists _, items2. split; [reflexivity|]. rewrite <- Hins.
    by apply owns_put_list.
  - rewrite (bind_run _ _ _ _ _ (iadd1_run chain 1 _ _ Hc)).
    eexists _, items2. split; [reflexivity|]. rewrite <- Hins.
    by apply owns_put_list.
Qed.

Lemma store_trials_refines (draws : list Q) :
  ∀ (s0 s : list Store.obj) (d : nat) (items : list (Z * nat))
    (m : gmap Z (Z * Z)) (counter : Z),
  owns s0 s d items m →
  ∃ s' items',
    Store.trials d counter draws s
    = Some ((foldl trial (m, counter) draws).2, s')
    ∧ owns s0 s' d items' (foldl trial (m, counter) draws).1.
Proof.
  induction draws as [|draw draws IH]; intros s0 s d items m counter Howns.
  - exists s, items. by split.
  - destruct (store_trial_refines s0 s d items m counter draw Howns)
      as (s1 & items1 & Hrun & Howns1).
    cbn [Store.trials foldl]. rewrite (bind_run _ _ _ _ _ Hrun).
    destruct (trial (m, counter) draw) as [m1 counter1].
    by apply (IH s0 s1 d items1).
Qed.

(** On any store, the trial runner returns a new dictionary that stands
    for the histogram computed on values, and it leaves every object that
    was there before as it was. *)
Lemma store_perform_trials_refines (num_trials : Z) (random : nat → Q)
    (s0 : list Store.obj) :
  ∃ s' items',
    Store.perform_trials num_trials random s0 = Some (length s0, s')
    ∧ owns s0 s' (length s0) items' (perform_trials num_trials random).
Proof.
  destruct (store_trials_refines (random <$> seq 0 (Z.to_nat num_trials))
              s0 _ _ _ _ 1 (owns_init s0)) as (s' & items' & Hrun & Howns).
  exists s', items'. split; [|exact Howns].
  unfold Store.perform_trials.
  rewrite (bind_run _ _ s0 (s0 ++ [Store.Dict []]) (length s0)) by done.
  by rewrite (bind_run _ _ _ _ _ Hrun).
Qed.

(** *** The result merger on objects *)

(** The body of the inner loop does to the dictionary what [merge_item]
    does to the histogram. *)
Lemma store_merge_key_refines (s0 s : list Store.obj) (d : nat)
    (items : list (Z * nat)) (m : gmap Z (Z * Z))
    (tr : nat) (tr_items : list (Z * nat)) (k : Z) (item : nat) (c : Z * Z) :
  owns s0 s d items m →
  Store.dict_at s0 tr = Some tr_items →
  Store.dict_lookup k tr_items = Some item →
  Store.list_at s0 item = Some c →
  ∃ s' items',
    Store.merge_key d tr k s = Some ((), s')
    ∧ owns s0 s' d items' (merge_item k c m).
Proof.
  intros Howns Htr Hk Hc.
  pose proof (owns_dict_at _ _ _ _ _ Howns) as Hd.
  pose proof (owns_unchanged _ _ _ _ _ Howns) as Hun.
  unfold Store.merge_key, merge_item.
  rewrite (bind_run _ _ _ _ _
             (getitem_run tr k s tr_items item
                (unchanged_dict_at _ _ _ _ Hun Htr) Hk)).
  rewrite (bind_run _ _ _ _ _ (contains_run _ k _ _ Hd)).
  destruct (Store.dict_lookup k items) as [dk|] eqn:Hdk.
  - rewrite bool_decide_eq_true_2 by eauto.
    destruct (owns_lookup_Some _ _ _ _ _ Howns k dk Hdk) as (cd & Hcd & Hm).
    rewrite Hm.
    (* d[k][0] += item[0] *)
    pose proof (owns_put_list _ _ _ _ _ Howns k dk (cd.1 + c.1) cd.2 Hdk)
      as Howns1.
    assert (Hrun1 :
      (dk ← Store.getitem d k; x ← Store.index0 item; Store.iadd0 dk x) s
      = Some ((), <[dk := Store.List2 (cd.1 + c.1) cd.2]> s)).
    { rewrite (bind_run _ _ _ _ _ (getitem_run d k s items dk Hd Hdk)).
      rewrite (bind_run _ _ _ _ _
                 (index0_run item s c (unchanged_list_at _ _ _ _ Hun Hc))).
      by apply iadd0_run. }
    rewrite (bind_run _ _ _ _ _ Hrun1).
    (* d[k][1] += item[1] *)
    pose proof (owns_dict_at _ _ _ _ _ Howns1) as Hd1.
    pose proof (owns_unchanged _ _ _ _ _ Howns1) as Hun1.
    destruct (owns_lookup_Some _ _ _ _ _ Howns1 k dk Hdk) as (cd1 & Hcd1 & Hm1).
    rewrite lookup_insert_eq in Hm1. simplify_eq.
    rewrite (bind_run _ _ _ _ _ (getitem_run d k _ items dk Hd1 Hdk)).
    rewrite (bind_run _ _ _ _ _
               (index1_run item _ c (unchanged_list_at _ _ _ _ Hun1 Hc))).
    rewrite (iadd1_run dk c.2 _ _ Hcd1). simpl.
    eexists _, items. split; [reflexivity|].
    rewrite <- (insert_insert_eq m k (cd.1 + c.1, cd.2 + c.2)
                  (cd.1 + c.1, cd.2)).
    by apply owns_put_list.
  - rewrite bool_decide_eq_false_2 by (by intros [? ?]).
    rewrite (owns_lookup_None _ _ _ _ _ Howns k Hdk).
    (* d[k] = item[:] *)
    rewrite (bind_run _ _ _ _ _
               (copy_run item s c (unchanged_list_at _ _ _ _ Hun Hc))).
    pose proof (owns_alloc _ _ _ _ _ Howns (Store.List2 c.1 c.2)) as Howns1.
    destruct (owns_next_fresh _ _ _ _ _ Howns) as [Hlen Hfresh].
    rewrite (setitem_run d k (length s) _ items
               (owns_dict_at _ _ _ _ _ Howns1)).
    eexists _, _. split; [reflexivity|].
    apply owns_setitem_new; try done.
    destruct c as [h t]. apply list_at_app_new.
Qed.

Lemma merge_item_lookup (k k' : Z) (c : Z * Z) (m : gmap Z (Z * Z)) :
  merge_item k c m !! k'
  = if decide (k' = k) then union_with add_chain (m !! k) (Some c)
    else m !! k'.
Proof.
  unfold merge_item. destruct (decide (k' = k)) as [->|Hne].
  - destruct (m !! k); by rewrite lookup_insert_eq.
  - destruct (m !! k); by rewrite lookup_insert_ne.
Qed.

(** Going through the keys of [tr] in any order without repetition gives
    the entry-wise sum. *)
Lemma fold_keys_lookup (tr : gmap Z (Z * Z)) (keys : list Z) :
  NoDup keys →
  ∀ (m : gmap Z (Z * Z)) (k' : Z),
    foldl (merge_key_value tr) m keys !! k'
    = union_with add_chain (m !! k')
        (if decide (k' ∈ keys) then tr !! k' else None).
Proof.
  induction keys as [|k keys IH]; intros Hnd m k'; simpl.
  - by destruct (m !! k').
  - apply NoDup_cons in Hnd as [Hk Hnd]. rewrite (IH Hnd).
    unfold merge_key_value at 1.
    destruct (decide (k' = k)) as [->|Hne].
    + rewrite (decide_True (P := k ∈ k :: keys)) by apply list_elem_of_here.
      rewrite (decide_False (P := k ∈ keys)) by done.
      destruct (tr !! k) as [c|].
      * rewrite merge_item_lookup, decide_True by done.
        by destruct (m !! k).
      * by destruct (m !! k).
    + assert (Hm : (match tr !! k with
                    | Some item => merge_item k item m
                    | None => m
                    end) !! k' = m !! k').
      { destruct (tr !! k); [|done].
        by rewrite merge_item_lookup, decide_False. }
      rewrite Hm. destruct (decide (k' ∈ keys)) as [Hin|Hnin].
      * by rewrite decide_True by by apply list_elem_of_further.
      * rewrite decide_False; [done|].
        intros [?|?]%elem_of_cons; done.
Qed.

Lemma fold_keys_merge_into (tr m : gmap Z (Z * Z)) (keys : list Z) :
  NoDup keys → (∀ k, is_Some (tr !! k) ↔ k ∈ keys) →
  foldl (merge_key_value tr) m keys = merge_into m tr.
Proof.
  intros Hnd Hkeys. apply map_eq. intros k.
  rewrite fold_keys_lookup, merge_into_lookup by done.
  destruct (decide (k ∈ keys)) as [Hin|Hnin]; [done|].
  destruct (tr !! k) as [c|] eqn:Hc; [|done].
  exfalso. apply Hnin, Hkeys. eauto.
Qed.

Lemma is_trial_result_value (s : list Store.obj) (tr : nat) :
  Store.is_trial_result s tr → is_Some (Store.value_of s tr).
Proof.
  intros (items & Hd & _ & Hall). unfold Store.value_of. rewrite Hd.
  by apply read_items_is_Some.
Qed.

(** The inner loop over some of the keys of [tr]. *)
Lemma store_merge_keys_refines (s0 : list Store.obj) (d tr : nat)
    (tr_items : list (Z * nat)) (mtr : gmap Z (Z * Z)) (keys : list Z) :
  Store.dict_at s0 tr = Some tr_items →
  Store.read_items s0 tr_items = Some mtr →
  keys ⊆ tr_items.*1 →
  ∀ (s : list Store.obj) (items : list (Z * nat)) (m : gmap Z (Z * Z)),
  owns s0 s d items m →
  ∃ s' items',
    Store.for_each keys (Store.merge_key d tr) s = Some ((), s')
    ∧ owns s0 s' d items' (foldl (merge_key_value mtr) m keys).
Proof.
  intros Htr Hmtr.
  induction keys as [|k keys IH]; intros Hsub s items m Howns.
  - exists s, items. by split.
  - assert (Hk : k ∈ tr_items.*1) by (apply Hsub, list_elem_of_here).
    destruct (Store.dict_lookup k tr_items) as [item|] eqn:Hitem;
      [|by apply dict_lookup_None in Hitem].
    pose proof (read_items_values _ _ _ Hmtr) as Hall.
    rewrite Forall_forall in Hall.
    destruct (Hall item (dict_lookup_value _ _ _ Hitem)) as [c Hc].
    assert (Hmk : mtr !! k = Some c).
    { by rewrite (read_items_stands_for _ _ _ Hmtr k), Hitem. }
    destruct (store_merge_key_refines s0 s d items m tr tr_items k item c
                Howns Htr Hitem Hc) as (s1 & items1 & Hrun & Howns1).
    cbn [Store.for_each foldl]. rewrite (bind_run _ _ _ _ _ Hrun).
    unfold merge_key_value at 2. rewrite Hmk.
    apply (IH (λ x Hx, Hsub x (list_elem_of_further _ _ _ Hx)) s1 items1).
    exact Howns1.
Qed.

(** The inner loop: one trial result is added to the dictionary. *)
Lemma store_merge_one_refines (s0 s : list Store.obj) (d tr : nat)
    (items : list (Z * nat)) (m mtr : gmap Z (Z * Z)) :
  owns s0 s d items m →
  Store.is_trial_result s0 tr →
  Store.value_of s0 tr = Some mtr →
  ∃ s' items',
    Store.merge_one d tr s = Some ((), s')
    ∧ owns s0 s' d items' (merge_into m mtr).
Proof.
  intros Howns (tr_items & Htr & Hnd & Hall) Hmtr.
  unfold Store.value_of in Hmtr. rewrite Htr in Hmtr.
  destruct (store_merge_keys_refines s0 d tr tr_items mtr tr_items.*1
              Htr Hmtr (λ x Hx, Hx) s items m Howns)
    as (s' & items' & Hrun & Howns').
  exists s', items'. split.
  - unfold Store.merge_one, mbind, Store.M_bind, Store.get_dict.
    by rewrite (unchanged_dict_at _ _ _ _
                  (owns_unchanged _ _ _ _ _ Howns) Htr).
  - rewrite <- (fold_keys_merge_into mtr m tr_items.*1); [done|done|].
    intros k. rewrite (read_items_stands_for _ _ _ Hmtr k).
    destruct (Store.dict_lookup k tr_items) as [item|] eqn:Hitem; simpl.
    + rewrite Forall_forall in Hall.
      split; [intros _|intros _; by eapply Hall, dict_lookup_value].
      apply dict_lookup_elem in Hitem.
      apply list_elem_of_fmap. by exists (k, item).
    + apply dict_lookup_None in Hitem. split; [by intros [? ?]|done].
Qed.

(** The outer loop. *)
Lemma store_merge_loop_refines (s0 : list Store.obj) (d : nat)
    (trs : list nat) (ms : list (gmap Z (Z * Z))) :
  Forall2 (λ tr mtr, Store.is_trial_result s0 tr
                     ∧ Store.value_of s0 tr = Some mtr) trs ms →
  ∀ (s : list Store.obj) (items : list (Z * nat)) (m : gmap Z (Z * Z)),
  owns s0 s d items m →
  ∃ s' items',
    Store.for_each trs (Store.merge_one d) s = Some ((), s')
    ∧ owns s0 s' d items' (foldl merge_into m ms).
Proof.
  intros Hall.
  induction Hall as [|tr mtr trs ms [Htr Hmtr] Hrest IH]; intros s items m Howns.
  - exists s, items. by split.
  - destruct (store_merge_one_refines s0 s d tr items m mtr Howns Htr Hmtr)
      as (s1 & items1 & Hrun & Howns1).
    cbn [Store.for_each foldl]. rewrite (bind_run _ _ _ _ _ Hrun).
    by apply (IH s1 items1).
Qed.

(** On objects, the result merger returns a new dictionary that stands for
    the merge of the values of its inputs. *)
Lemma store_merge_trials_refines (s0 : list Store.obj)
    (trs : list nat) (ms : list (gmap Z (Z * Z))) :
  Forall2 (λ tr mtr, Store.is_trial_result s0 tr
                     ∧ Store.value_of s0 tr = Some mtr) trs ms →
  ∃ s' items',
    Store.merge_trials trs s0 = Some (length s0, s')
    ∧ owns s0 s' (length s0) items' (merge_trials ms).
Proof.
  intros Hall.
  destruct (store_merge_loop_refines s0 (length s0) trs ms Hall
              _ _ _ (owns_init s0)) as (s' & items' & Hrun & Howns).
  exists s', items'. split; [|exact Howns].
  unfold Store.merge_trials.
  rewrite (bind_run _ _ s0 (s0 ++ [Store.Dict []]) (length s0)) by done.
  by rewrite (bind_run _ _ _ _ _ Hrun).
Qed.

Lemma trial_results_values (s : list Store.obj) (trs : list nat) :
  Forall (Store.is_trial_result s) trs →
  ∃ ms, Forall2 (λ tr mtr, Store.is_trial_result s tr
                           ∧ Store.value_of s tr = Some mtr) trs ms.
Proof.
  induction 1 as [|tr trs Htr _ [ms IH]].
  - exists []. constructor.
  - destruct (is_trial_result_value s tr Htr) as [mtr Hmtr].
    exists (mtr :: ms). by constructor.
Qed.

(** ** The functions on objects: sharing and mutation *)

(** C10. Every key of the dictionary the trial runner returns holds a
    list with [heads + tails >= 1]: the list made as [[0, 0]] and stored
    under [counter] is the one the flip increments, so the dictionary
    object that is returned stands for the histogram computed on values,
    in which every entry has been counted at least once. *)
Theorem perform_trials_no_zero_entry (num_trials : Z) (random : nat → Q)
    (s : list Store.obj) :
  ∃ (head_chains : nat) (s' : list Store.obj),
    Store.perform_trials num_trials random s = Some (head_chains, s')
    ∧ Store.value_of s' head_chains = Some (perform_trials num_trials random)
    ∧ (∀ (k : Z) (c : Z * Z),
         perform_trials num_trials random !! k = Some c →
         0 ≤ c.1 ∧ 0 ≤ c.2 ∧ 1 ≤ c.1 + c.2)
    ∧ (∀ (k : Z) (items : list (Z * nat)) (v : nat),
         Store.dict_at s' head_chains = Some items →
         Store.dict_lookup k items = Some v →
         ∃ h t, Store.list_at s' v = Some (h, t) ∧ 1 ≤ h + t).
Proof.
  destruct (store_perform_trials_refines num_trials random s)
    as (s' & items' & Hrun & Howns).
  assert (Hcount : ∀ (k : Z) (c : Z * Z),
            perform_trials num_trials random !! k = Some c →
            0 ≤ c.1 ∧ 0 ≤ c.2 ∧ 1 ≤ c.1 + c.2).
  { intros k c. unfold perform_trials. rewrite run_trials_to_nat.
    apply entries_counted. }
  exists (length s), s'. split_and!.
  - exact Hrun.
  - by eapply owns_value_of.
  - exact Hcount.
  - intros k items v Hd Hk.
    rewrite (owns_dict_at _ _ _ _ _ Howns) in Hd. simplify_eq.
    destruct (owns_lookup_Some _ _ _ _ _ Howns k v Hk) as ([h t] & Hc & Hm).
    exists h, t. split; [done|]. apply (Hcount k (h, t) Hm).
Qed.

Lemma perform_trials_no_zero_entry_witness :
  perform_trials 3 (λ i, if decide (i < 2)%nat then 3 # 4 else 1 # 4)%Q !! 1
  = Some (1, 0)
  ∧ 1 ≤ (1, 0).1 + (1, 0).2.
Proof.
  assert (Hc : perform_trials 3
                 (λ i, if decide (i < 2)%nat then 3 # 4 else 1 # 4)%Q !! 1
               = Some (1, 0)) by (vm_compute; reflexivity).
  split; [exact Hc|].
  destruct (perform_trials_no_zero_entry 3
              (λ i, if decide (i < 2)%nat then 3 # 4 else 1 # 4)%Q [])
    as (d & s' & _ & _ & Hcount & _).
  apply (Hcount 1 (1, 0) Hc).
Defined.

(** C8. [merge_trials] leaves its inputs as they were: every object that
    existed before the call is unchanged after it, so each input
    dictionary has the keys, the lists and the counts it had; and the
    dictionary it returns and every list that dictionary refers to are
    new objects, so the result shares nothing with the inputs. *)
Theorem merge_trials_inputs_unchanged (trial_results : list nat)
    (s : list Store.obj) :
  Forall (Store.is_trial_result s) trial_results →
  ∃ (d : nat) (s' : list Store.obj),
    Store.merge_trials trial_results s = Some (d, s')
    ∧ unchanged s s'
    ∧ (∀ tr, tr ∈ trial_results →
         Store.dict_at s' tr = Store.dict_at s tr
         ∧ Store.value_of s' tr = Store.value_of s tr
         ∧ is_Some (Store.value_of s tr))
    ∧ s !! d = None
    ∧ (∀ v, v ∈ Store.values_of s' d → s !! v = None)
    ∧ (∀ tr, tr ∈ trial_results →
         tr ≠ d
         ∧ ∀ v, v ∈ Store.values_of s tr →
                v ≠ d ∧ v ∉ Store.values_of s' d).
Proof.
  intros Hin. destruct (trial_results_values s trial_results Hin) as [ms Hms].
  destruct (store_merge_trials_refines s trial_results ms Hms)
    as (s' & items' & Hrun & Howns).
  pose proof (owns_unchanged _ _ _ _ _ Howns) as Hun.
  assert (Hnew : ∀ v, v ∈ Store.values_of s' (length s) → s !! v = None).
  { intros v. unfold Store.values_of.
    rewrite (owns_dict_at _ _ _ _ _ Howns). intros Hv.
    apply lookup_ge_None.
    by destruct (owns_value_list _ _ _ _ _ Howns v Hv). }
  rewrite Forall_forall in Hin.
  exists (length s), s'. split_and!.
  - exact Hrun.
  - exact Hun.
  - intros tr Htr. destruct (Hin tr Htr) as (items & Hd & Hnd & Hall).
    destruct (is_trial_result_value s tr (Hin tr Htr)) as [m Hm].
    split_and!.
    + by rewrite Hd, (unchanged_dict_at _ _ _ _ Hun Hd).
    + by rewrite Hm, (unchanged_value_of _ _ _ _ Hun Hm).
    + eauto.
  - by apply lookup_ge_None.
  - exact Hnew.
  - intros tr Htr. destruct (Hin tr Htr) as (items & Hd & Hnd & Hall).
    split.
    + intros ->. apply dict_at_Some, lookup_lt_Some in Hd. lia.
    + intros v Hv. unfold Store.values_of in Hv. rewrite Hd in Hv.
      rewrite Forall_forall in Hall. destruct (Hall v Hv) as [c Hc].
      apply list_at_Some in Hc. split.
      * intros ->. apply lookup_lt_Some in Hc. lia.
      * intros Hv'. apply Hnew in Hv'. congruence.
Qed.

Lemma merge_trials_inputs_unchanged_witness :
  ∃ (d : nat) (s' : list Store.obj),
    Store.merge_trials [0; 3]%nat
      [Store.Dict [(1, 1%nat); (2, 2%nat)]; Store.List2 2 1; Store.List2 1 0;
       Store.Dict [(4, 4%nat); (1, 5%nat)]; Store.List2 5 6; Store.List2 0 3]
    = Some (d, s')
    ∧ unchanged
        [Store.Dict [(1, 1%nat); (2, 2%nat)]; Store.List2 2 1; Store.List2 1 0;
         Store.Dict [(4, 4%nat); (1, 5%nat)]; Store.List2 5 6; Store.List2 0 3]
        s'.
Proof.
  destruct (merge_trials_inputs_unchanged [0; 3]%nat
    [Store.Dict [(1, 1%nat); (2, 2%nat)]; Store.List2 2 1; Store.List2 1 0;
     Store.Dict [(4, 4%nat); (1, 5%nat)]; Store.List2 5 6; Store.List2 0 3])
    as (d & s' & Hrun & Hun & _).
  - repeat apply Forall_cons_2; [| |apply Forall_nil_2].
    + exists [(1, 1%nat); (2, 2%nat)]. split; [reflexivity|].
      split; apply (bool_decide_unpack _); vm_compute; exact I.
    + exists [(4, 4%nat); (1, 5%nat)]. split; [reflexivity|].
      split; apply (bool_decide_unpack _); vm_compute; exact I.
  - exists d, s'. by split.
Defined.

(** ** The pipeline *)

(** The queue hands over every result exactly once, in some order. *)
Lemma q_get_all_perm {A : Type} (arrival : nat → nat) (n : nat) :
  ∀ waiting : list A, length waiting = n →
    q_get_all arrival n waiting ≡ₚ waiting.
Proof.
  induction n as [|n IH]; intros waiting Hlen; simpl.
  - by apply nil_length_inv in Hlen as ->.
  - assert (Hj : (arrival n `mod` length waiting < length waiting)%nat).
    { apply Nat.mod_upper_bound. lia. }
    destruct (lookup_lt_is_Some_2 _ _ Hj) as [x Hx]. rewrite Hx.
    trans (x :: delete (arrival n `mod` length waiting)%nat waiting).
    + constructor. apply IH. rewrite length_delete by eauto. lia.
    + symmetry. by apply delete_Permutation.
Qed.

Lemma collect_perm (e : env) (num_trials num_workers : Z) (sizes : list Z) :
  yield_worker_batch_sizes num_trials num_workers = Ok sizes →
  collect e num_workers sizes ≡ₚ worker_results e sizes.
Proof.
  intros Hsizes. apply q_get_all_perm. unfold worker_results.
  rewrite length_imap. by eapply batch_sizes_length.
Qed.

(** The merged histogram does not depend on the order of arrival. *)
Lemma merged_results_workers (e : env) (num_trials num_workers : Z)
    (sizes : list Z) :
  yield_worker_batch_sizes num_trials num_workers = Ok sizes →
  merged_results e num_trials num_workers
  = Ok (merge_trials (worker_results e sizes)).
Proof.
  intros Hsizes. unfold merged_results. rewrite Hsizes. f_equal.
  apply merge_trials_perm. by eapply collect_perm.
Qed.

Lemma sum_Z_imap_split {A : Type} (l : list A) :
  ∀ f g h o : nat → A → Z,
    (∀ i x, f i x = g i x - h i x + o i x) →
    sum_Z (imap f l)
    = sum_Z (imap g l) - sum_Z (imap h l) + sum_Z (imap o l).
Proof.
  induction l as [|x l IH]; intros f g h o Hf; [done|].
  rewrite !imap_cons. simpl.
  rewrite (IH (f ∘ S) (g ∘ S) (h ∘ S) (o ∘ S)) by (intros; apply Hf).
  rewrite Hf. lia.
Qed.

Lemma sum_Z_imap_bool {A : Type} (l : list A) :
  ∀ b : nat → A → bool,
    0 ≤ sum_Z (imap (λ i x, Z.b2z (b i x)) l) ≤ Z.of_nat (length l).
Proof.
  induction l as [|x l IH]; intros b; [unfold sum_Z; simpl; lia|].
  rewrite imap_cons. specialize (IH (λ i, b (S i))).
  change (sum_Z (?y :: ?ys)) with (y + sum_Z ys).
  change (length (x :: l)) with (S (length l)).
  change (imap (_ ∘ S) l) with (imap (λ i x, Z.b2z (b (S i) x)) l).
  destruct (b 0%nat x); simpl Z.b2z; lia.
Qed.

Lemma omap_started (sizes : list Z) :
  omap (λ ev, match ev with Started b => Some b | _ => None end)
       (Started <$> sizes)
  = sizes.
Proof. induction sizes as [|b sizes IH]; [done|]. csimpl. by rewrite IH. Qed.

(** The processes [main] starts, when the output file does not exist and
    the worker count is not zero. *)
Lemma main_started (out_file : string) (num_trials num_workers : Z)
    (e : env) (w : world) (sizes : list Z) :
  isfile w out_file = false →
  yield_worker_batch_sizes num_trials num_workers = Ok sizes →
  started (main out_file (Some num_trials) (Some num_workers) e w).1
  = started w ++ sizes.
Proof.
  intros Hfile Hsizes. unfold main. cbv zeta.
  change (default 1000 (Some num_trials)) with num_trials.
  change (default 1 (Some num_workers)) with num_workers.
  rewrite Hfile, Hsizes.
  destruct (max_key _);
    [destruct (files _ !! out_file) as [[]|];
     try destruct (open_fails e out_file)|];
    unfold started, emit; cbn [fst log files];
    rewrite !omap_app, omap_started; csimpl; by rewrite ?app_nil_r.
Qed.

(** C6, as the code has it.  In the merged histogram the heads at key 1
    are the tails at all keys other than 1 plus the number of workers
    whose batch ended on heads: a head at key 1 opens a streak, which a
    tail at a longer length closes unless the batch ends first. *)
Theorem merged_heads_at_1 (e : env) (num_trials num_workers : Z)
    (sizes : list Z) :
  yield_worker_batch_sizes num_trials num_workers = Ok sizes →
  ∃ merged : gmap Z (Z * Z),
    merged_results e num_trials num_workers = Ok merged
    ∧ heads_at merged 1
      = total_tails merged - tails_at merged 1 + open_streaks e sizes
    ∧ 0 ≤ open_streaks e sizes ≤ Z.of_nat (length sizes).
Proof.
  intros Hsizes. eexists. split; [by apply merged_results_workers|]. split.
  - unfold heads_at, tails_at, total_tails.
    rewrite get_chain_merge_trials. simpl.
    rewrite sum_over_merge_trials by (intros; simpl; lia).
    unfold worker_results, open_streaks. rewrite !fmap_imap.
    apply sum_Z_imap_split. intros i b. simpl.
    apply perform_trials_heads_at_1.
  - apply sum_Z_imap_bool.
Qed.

Lemma merged_heads_at_1_witness :
  ∃ merged : gmap Z (Z * Z),
    merged_results all_tails 7 3 = Ok merged
    ∧ heads_at merged 1
      = total_tails merged - tails_at merged 1 + open_streaks all_tails [3; 2; 2].
Proof.
  destruct (merged_heads_at_1 all_tails 7 3 [3; 2; 2] eq_refl)
    as (merged & Hm & Hh & _).
  exists merged. by split.
Defined.

(** The claim of C6 as the specification states it fails: one worker, one
    flip, tails.  The histogram is [{1: [0, 1]}], with no head at key 1
    and one tail in all. *)
Lemma merged_heads_at_1_counterexample :
  merged_results all_tails 1 1 = Ok {[ 1 := (0, 1) ]}
  ∧ heads_at {[ 1 := (0, 1) ]} 1 ≠ total_tails {[ 1 := (0, 1) ]}.
Proof. split; [by vm_compute|]. by vm_compute. Qed.

(** C7. [main] raises the "already exists" error exactly when the output
    path names an existing file, and then nothing else has happened: no
    process was started, nothing was printed and no file was written. *)
Theorem main_file_exists (out_file : string) (num_trials num_workers : option Z)
    (e : env) (w : world) :
  ((main out_file num_trials num_workers e w).2 = Raise (FileExists out_file)
   ↔ isfile w out_file = true)
  ∧ (∀ path, (main out_file num_trials num_workers e w).2
             = Raise (FileExists path) →
             isfile w out_file = true)
  ∧ (isfile w out_file = true →
     main out_file num_trials num_workers e w
     = (w, Raise (FileExists out_file))).
Proof.
  assert (Hconv : ∀ path, (main out_file num_trials num_workers e w).2
                          = Raise (FileExists path) →
                          isfile w out_file = true).
  { intros path. unfold main.
    destruct (isfile w out_file); [done|].
    destruct (yield_worker_batch_sizes _ _) as [sizes|x] eqn:Hy.
    - destruct (max_key _); [|done]. simpl.
      destruct (files w !! out_file) as [[]|]; try done;
        by destruct (open_fails e out_file) as [[]|].
    - unfold yield_worker_batch_sizes in Hy.
      destruct (decide (default 1 num_workers = 0)); by simplify_eq. }
  assert (Hexists : isfile w out_file = true →
                    main out_file num_trials num_workers e w
                    = (w, Raise (FileExists out_file))).
  { intros Hfile. unfold main. by rewrite Hfile. }
  split_and!.
  - split; [apply Hconv|]. intros Hfile. by rewrite Hexists.
  - exact Hconv.
  - exact Hexists.
Qed.

Lemma main_file_exists_witness :
  main "out.csv" (Some 7) (Some 3) all_tails
       (World {[ "out.csv" := File [] [] ]} [])
  = (World {[ "out.csv" := File [] [] ]} [], Raise (FileExists "out.csv")).
Proof.
  apply (main_file_exists "out.csv" (Some 7) (Some 3) all_tails
           (World {[ "out.csv" := File [] [] ]} [])).
  reflexivity.
Defined.

(** C9, as the code has it.  A call of [main] without trial count and
    worker count runs 1000 trials on 1 worker; the one million trials and
    the worker per processor are what the script passes to [main] when the
    file is run as a program. *)
Theorem main_defaults (out_file : string) (h : host) (e : env) (w : world) :
  main out_file None None e w = main out_file (Some 1000) (Some 1) e w
  ∧ script h e w
    = main (probability_data_csv h) (Some 1000000) (Some (cpu_count h)) e w
  ∧ (isfile w out_file = false →
     started (main out_file None None e w).1 = started w ++ [1000])
  ∧ (isfile w (probability_data_csv h) = false → 1 ≤ cpu_count h →
     ∃ sizes : list Z,
       started (script h e w).1 = started w ++ sizes
       ∧ Z.of_nat (length sizes) = cpu_count h
       ∧ sum_Z sizes = 1000000).
Proof.
  split_and!; try reflexivity.
  - intros Hfile. by apply (main_started out_file 1000 1).
  - intros Hfile Hcpu.
    destruct (yield_worker_batch_sizes 1000000 (cpu_count h))
      as [sizes|x] eqn:Hsizes.
    + exists sizes. split_and!.
      * by apply main_started.
      * rewrite (batch_sizes_length _ _ _ Hsizes). lia.
      * by apply (batch_sizes_sum 1000000 (cpu_count h)).
    + unfold yield_worker_batch_sizes in Hsizes.
      destruct (decide (cpu_count h = 0)); [lia|done].
Qed.

Lemma main_defaults_witness :
  started (main "out.csv" None None all_tails empty_world).1 = [1000]
  ∧ ∃ sizes : list Z,
      started (script (Host 4 "out.csv") all_tails empty_world).1 = sizes
      ∧ Z.of_nat (length sizes) = 4
      ∧ sum_Z sizes = 1000000.
Proof.
  destruct (main_defaults "out.csv" (Host 4 "out.csv") all_tails empty_world)
    as (_ & _ & Hmain & Hscript).
  split.
  - apply Hmain. reflexivity.
  - destruct Hscript as (sizes & H1 & H2 & H3); [reflexivity|simpl; lia|].
    exists sizes. by split_and!.
Defined.

(** The claim of C9 as the specification states it fails: called without
    the two counts, [main] does not do what it does for one million trials
    on the processors of the machine (here 4); it starts one process, with
    a batch of 1000. *)
Lemma main_defaults_counterexample :
  main "out.csv" None None all_tails empty_world
  ≠ main "out.csv" (Some 1000000) (Some (cpu_count (Host 4 "out.csv")))
         all_tails empty_world.
Proof.
  intros Heq. apply (f_equal (λ r, started r.1)) in Heq.
  cbv beta in Heq. change (cpu_count (Host 4 "out.csv")) with 4 in Heq.
  rewrite (main_started "out.csv" 1000000 4 all_tails empty_world
             [250000; 250000; 250000; 250000]) in Heq by reflexivity.
  change (main "out.csv" None None all_tails empty_world)
    with (main "out.csv" (Some 1000) (Some 1) all_tails empty_world) in Heq.
  rewrite (main_started "out.csv" 1000 1 all_tails empty_world [1000])
    in Heq by reflexivity.
  discriminate Heq.
Qed.

(** * Further properties *)

(** ** Batch splitter: edge cases *)

Lemma batch_sizes_ok (num_trials num_workers : Z) :
  num_workers ≠ 0 →
  yield_worker_batch_sizes num_trials num_workers
  = Ok ((λ i, num_trials `div` num_workers
              + Z.b2z (i <? num_trials
                            - num_trials `div` num_workers * num_workers))
          <$> range num_workers).
Proof.
  intros Hw. unfold yield_worker_batch_sizes.
  by destruct (decide (num_workers = 0)).
Qed.

Lemma fmap_range_replicate (b r : Z) (n : nat) :
  0 ≤ r ≤ Z.of_nat n →
  (λ i, b + Z.b2z (i <? r)) <$> range (Z.of_nat n)
  = replicate (Z.to_nat r) (b + 1) ++ replicate (n - Z.to_nat r) b.
Proof.
  intros Hr. apply list_eq. intros i.
  destruct (decide (Z.of_nat i < Z.of_nat n)) as [Hi|Hi].
  - rewrite batch_size_lookup by done.
    destruct (Z.ltb_spec (Z.of_nat i) r) as [Hlt|Hge]; simpl.
    + rewrite lookup_app_l by (rewrite length_replicate; lia).
      symmetry. apply lookup_replicate_2. lia.
    + rewrite lookup_app_r by (rewrite length_replicate; lia).
      rewrite length_replicate, Z.add_0_r.
      symmetry. apply lookup_replicate_2. lia.
  - rewrite list_lookup_fmap. unfold range.
    rewrite lookup_seqZ_ge by lia. simpl. symmetry.
    apply lookup_ge_None. rewrite length_app, !length_replicate. lia.
Qed.

Lemma length_filter_replicate (n : nat) (x : Z) :
  length (filter (λ b, 1 ≤ b) (replicate n x))
  = if decide (1 ≤ x) then n else 0%nat.
Proof.
  induction n as [|n IH]; simpl.
  - by destruct (decide (1 ≤ x)).
  - rewrite filter_cons. destruct (decide (1 ≤ x)); simpl; by rewrite IH.
Qed.

(** X1. The batch splitter raises [ZeroDivisionError] exactly when there
    are no workers, and for a negative number of workers it yields
    nothing: the division succeeds and [range] is empty. *)
Theorem yield_worker_batch_sizes_no_workers (num_trials num_workers : Z) :
  (yield_worker_batch_sizes num_trials num_workers = Raise ZeroDivisionError
   ↔ num_workers = 0)
  ∧ (∀ x, yield_worker_batch_sizes num_trials num_workers = Raise x →
          x = ZeroDivisionError)
  ∧ (num_workers < 0 →
     yield_worker_batch_sizes num_trials num_workers = Ok []).
Proof.
  unfold yield_worker_batch_sizes.
  destruct (decide (num_workers = 0)) as [->|Hne]; split_and!.
  - done.
  - by intros x [= <-].
  - lia.
  - split; [done|lia].
  - done.
  - intros Hneg. f_equal. unfold range.
    by rewrite seqZ_nil by lia.
Qed.

Lemma yield_worker_batch_sizes_no_workers_witness :
  yield_worker_batch_sizes 7 (-3) = Ok [].
Proof.
  apply (yield_worker_batch_sizes_no_workers 7 (-3)). lia.
Defined.

(** X2. With fewer trials than workers, the first [total_trials] workers
    get one trial each and the others get none. *)
Theorem yield_worker_batch_sizes_few_trials (total_trials worker_count : Z) :
  0 ≤ total_trials < worker_count →
  yield_worker_batch_sizes total_trials worker_count
  = Ok (replicate (Z.to_nat total_trials) 1
        ++ replicate (Z.to_nat (worker_count - total_trials)) 0).
Proof.
  intros Hn. rewrite batch_sizes_ok by lia. f_equal.
  rewrite Z.div_small by lia.
  set (r := total_trials - 0 * worker_count).
  assert (Hr : r = total_trials) by (subst r; lia).
  rewrite <- (Z2Nat.id worker_count) at 1 by lia.
  rewrite fmap_range_replicate by lia. rewrite Hr. simpl.
  do 2 f_equal. lia.
Qed.

Lemma yield_worker_batch_sizes_few_trials_witness :
  yield_worker_batch_sizes 2 5 = Ok [1; 1; 0; 0; 0].
Proof.
  apply (yield_worker_batch_sizes_few_trials 2 5). lia.
Defined.

(** X3. When the workers divide the trials evenly, every worker gets the
    same batch. *)
Theorem yield_worker_batch_sizes_even (batch worker_count : Z) :
  1 ≤ worker_count →
  yield_worker_batch_sizes (batch * worker_count) worker_count
  = Ok (replicate (Z.to_nat worker_count) batch).
Proof.
  intros Hw. rewrite batch_sizes_ok by lia. f_equal.
  rewrite Z.div_mul by lia.
  set (r := batch * worker_count - batch * worker_count).
  assert (Hr : r = 0) by (subst r; lia).
  rewrite <- (Z2Nat.id worker_count) at 1 by lia.
  rewrite fmap_range_replicate by lia. rewrite Hr. simpl.
  f_equal. lia.
Qed.

Lemma yield_worker_batch_sizes_even_witness :
  yield_worker_batch_sizes (250000 * 4) 4
  = Ok [250000; 250000; 250000; 250000].
Proof.
  apply (yield_worker_batch_sizes_even 250000 4). lia.
Defined.

(** X4. For a non-negative number of trials and at least one worker, no
    batch is negative, and the number of workers that get at least one
    trial is the smaller of the two numbers. *)
Theorem yield_worker_batch_sizes_nonneg (total_trials worker_count : Z) :
  0 ≤ total_trials → 1 ≤ worker_count →
  ∃ sizes : list Z,
    yield_worker_batch_sizes total_trials worker_count = Ok sizes
    ∧ Forall (λ b, 0 ≤ b) sizes
    ∧ Z.of_nat (length (filter (λ b, 1 ≤ b) sizes))
      = Z.min total_trials worker_count.
Proof.
  intros Hn Hw. eexists. split; [by apply batch_sizes_ok; lia|].
  pose proof (Z.mod_pos_bound total_trials worker_count ltac:(lia)) as Hm.
  rewrite Z.mod_eq in Hm by lia.
  pose proof (Z.div_pos total_trials worker_count Hn ltac:(lia)) as Hb.
  set (b := total_trials `div` worker_count) in *.
  set (r := total_trials - b * worker_count) in *.
  assert (Hsizes : (λ i, b + Z.b2z (i <? r)) <$> range worker_count
                   = replicate (Z.to_nat r) (b + 1)
                     ++ replicate (Z.to_nat worker_count - Z.to_nat r) b).
  { rewrite <- (Z2Nat.id worker_count) at 1 by lia.
    apply fmap_range_replicate. lia. }
  rewrite Hsizes. split.
  - apply Forall_app. split; apply Forall_replicate; lia.
  - rewrite filter_app, length_app, !length_filter_replicate.
    destruct (decide (1 ≤ b + 1)), (decide (1 ≤ b)); try lia.
    assert (worker_count ≤ total_trials) by nia. lia.
Qed.

Lemma yield_worker_batch_sizes_nonneg_witness :
  ∃ sizes : list Z,
    yield_worker_batch_sizes 2 5 = Ok sizes
    ∧ Z.of_nat (length (filter (λ b, 1 ≤ b) sizes)) = Z.min 2 5.
Proof.
  destruct (yield_worker_batch_sizes_nonneg 2 5 ltac:(lia) ltac:(lia))
    as (sizes & H1 & _ & H3).
  exists sizes. by split.
Defined.

(** ** Trial runner: what the counts are *)

Lemma outcomes_succ (n : nat) (random : nat → Q) :
  outcomes (Z.of_nat (S n)) random
  = outcomes (Z.of_nat n) random ++ [flip_coin (random n)].
Proof.
  unfold outcomes. by rewrite !Nat2Z.id, seq_S, fmap_app.
Qed.

Lemma total_heads_trial (hc : gmap Z (Z * Z)) (counter : Z) (draw : Q) :
  total_heads (trial (hc, counter) draw).1
  = total_heads hc
    + match flip_coin draw with Heads => 1 | Tails => 0 end.
Proof.
  unfold total_heads, trial.
  destruct (flip_coin draw); simpl; rewrite sum_over_insert;
    destruct (hc !! counter) as [[h t]|]; simpl; lia.
Qed.

Lemma totals_run (n : nat) (random : nat → Q) :
  total_heads (run_trials (Z.of_nat n) random).1
  = count_heads (outcomes (Z.of_nat n) random)
  ∧ total_tails (run_trials (Z.of_nat n) random).1
    = count_tails (outcomes (Z.of_nat n) random).
Proof.
  induction n as [|n [IHh IHt]]; [done|].
  rewrite run_trials_succ, outcomes_succ.
  destruct (run_trials (Z.of_nat n) random) as [hc cnt].
  rewrite total_heads_trial, total_tails_trial.
  unfold count_heads, count_tails in *.
  rewrite !fmap_app, !sum_Z_app. cbn [fst] in IHh, IHt.
  rewrite IHh, IHt. split; destruct (flip_coin (random n)); simpl; lia.
Qed.

(** X5. The heads of the histogram, summed over all keys, are the heads
    among the flips of the run, and the tails are the tails: every flip is
    counted once, on its own side. *)
Theorem perform_trials_counts_outcomes (num_trials : Z) (random : nat → Q) :
  total_heads (perform_trials num_trials random)
  = count_heads (outcomes num_trials random)
  ∧ total_tails (perform_trials num_trials random)
    = count_tails (outcomes num_trials random).
Proof.
  unfold perform_trials. rewrite run_trials_to_nat.
  replace (outcomes num_trials random)
    with (outcomes (Z.of_nat (Z.to_nat num_trials)) random)
    by (unfold outcomes; by rewrite Nat2Z.id).
  apply totals_run.
Qed.

(** The flips counted at a length above 1 are the heads counted one
    length below, but for the streak that is open. *)
Lemma flow_run (n : nat) (random : nat → Q) (k : Z) :
  1 ≤ k →
  let st := run_trials (Z.of_nat n) random in
  heads_at st.1 k
  = heads_at st.1 (k + 1) + tails_at st.1 (k + 1) + Z.b2z (st.2 =? k + 1).
Proof.
  intros Hk. induction n as [|n IH].
  { cbn zeta. rewrite run_trials_nonpos by lia.
    unfold heads_at, tails_at, get_chain. cbn [fst snd].
    rewrite !lookup_empty. cbn [default from_option id fst snd].
    destruct (Z.eqb_spec 1 (k + 1)); cbn [Z.b2z]; lia. }
  pose proof (counter_pos n random) as Hc.
  rewrite run_trials_succ.
  destruct (run_trials (Z.of_nat n) random) as [hc cnt].
  cbn zeta in *. cbn [fst snd] in IH, Hc.
  unfold heads_at, tails_at in *.
  rewrite !get_chain_trial, trial_snd. revert IH.
  destruct (flip_coin (random n));
    destruct (decide (k = cnt)), (decide (k + 1 = cnt)); cbn [fst snd];
    repeat match goal with
           | |- context [?a =? ?b] => destruct (Z.eqb_spec a b)
           end; cbn [Z.b2z]; lia.
Qed.

(** X6. For every length [k >= 1], the heads counted at [k] are the
    flips counted at [k + 1], plus one if the run ended right after a head
    at [k] (the counter then stands at [k + 1]): a head at [k] is followed
    by a flip at [k + 1] unless the trials run out.  So the flips counted
    at a length are never more than the heads counted one length below. *)
Theorem perform_trials_flow (num_trials : Z) (random : nat → Q) (k : Z) :
  1 ≤ k →
  heads_at (perform_trials num_trials random) k
  = heads_at (perform_trials num_trials random) (k + 1)
    + tails_at (perform_trials num_trials random) (k + 1)
    + Z.b2z ((run_trials num_trials random).2 =? k + 1)
  ∧ heads_at (perform_trials num_trials random) (k + 1)
    + tails_at (perform_trials num_trials random) (k + 1)
    ≤ heads_at (perform_trials num_trials random) k.
Proof.
  intros Hk. unfold perform_trials. rewrite run_trials_to_nat.
  pose proof (flow_run (Z.to_nat num_trials) random k Hk) as H.
  cbn zeta in H. split; [exact H|].
  destruct (_ =? _); simpl in H; lia.
Qed.

Lemma perform_trials_flow_witness :
  heads_at (perform_trials 3 (λ i, if decide (i < 2)%nat then 3 # 4 else 1 # 4)%Q) 1
  = heads_at (perform_trials 3 (λ i, if decide (i < 2)%nat then 3 # 4 else 1 # 4)%Q) 2
    + tails_at (perform_trials 3 (λ i, if decide (i < 2)%nat then 3 # 4 else 1 # 4)%Q) 2
    + Z.b2z ((run_trials 3 (λ i, if decide (i < 2)%nat then 3 # 4 else 1 # 4)%Q).2
             =? 2).
Proof.
  apply (perform_trials_flow 3 _ 1). lia.
Defined.

(** The counter is at most one more than the number of flips made. *)
Lemma counter_at_le (random : nat → Q) (i : nat) :
  counter_at random i ≤ Z.of_nat i + 1.
Proof.
  induction i as [|i IH]; [done|]. rewrite counter_at_succ.
  destruct (flip_coin (random i)); lia.
Qed.

Lemma max_streak_le (n : nat) (random : nat → Q) :
  max_streak (Z.of_nat n) random ≤ Z.of_nat n.
Proof.
  induction n as [|n IH]; [done|]. rewrite max_streak_succ.
  pose proof (counter_at_le random n). lia.
Qed.

(** X7. No key of the histogram is outside 1 .. [num_trials], and the
    histogram has at most [num_trials] keys. *)
Theorem perform_trials_keys_bounded (num_trials : Z) (random : nat → Q) :
  (∀ k : Z, k ∈ dom (perform_trials num_trials random) →
            1 ≤ k ≤ num_trials)
  ∧ (size (perform_trials num_trials random) ≤ Z.to_nat num_trials)%nat.
Proof.
  assert (Hdom : dom (perform_trials num_trials random)
                 = list_to_set (seqZ 1 (max_streak num_trials random))).
  { apply set_eq. intros k. rewrite elem_of_list_to_set, elem_of_seqZ.
    rewrite elem_of_dom. unfold perform_trials.
    rewrite run_trials_to_nat, max_streak_to_nat.
    rewrite (proj1 (keys_contiguous _ _) k). lia. }
  pose proof (max_streak_le (Z.to_nat num_trials) random) as Hle.
  rewrite <- max_streak_to_nat in Hle. split.
  - intros k. rewrite Hdom, elem_of_list_to_set, elem_of_seqZ. lia.
  - rewrite <- size_dom, Hdom.
    rewrite size_list_to_set by apply NoDup_seqZ.
    rewrite length_seqZ. lia.
Qed.

Lemma perform_trials_keys_bounded_witness :
  3 ∈ dom (perform_trials 3 (λ i, if decide (i < 2)%nat then 3 # 4 else 1 # 4)%Q)
  ∧ 1 ≤ 3 ≤ 3.
Proof.
  assert (Hin : 3 ∈ dom (perform_trials 3
                  (λ i, if decide (i < 2)%nat then 3 # 4 else 1 # 4)%Q)).
  { apply (bool_decide_unpack _). vm_compute. exact I. }
  split; [exact Hin|].
  apply (perform_trials_keys_bounded 3
           (λ i, if decide (i < 2)%nat then 3 # 4 else 1 # 4)%Q).
  exact Hin.
Defined.




Lemma run_all_tails (n : nat) (random : nat → Q) :
  (∀ i, (i < S n)%nat → flip_coin (random i) = Tails) →
  run_trials (Z.of_nat (S n)) random = ({[ 1 := (0, Z.of_nat (S n)) ]}, 1).
Proof.
  induction n as [|n IH]; intros Htails.
  - rewrite run_trials_succ. unfold trial. simpl.
    rewrite (Htails 0%nat) by lia. by rewrite lookup_empty, insert_empty.
  - rewrite run_trials_succ, IH by (intros; apply Htails; lia).
    unfold trial. rewrite (Htails (S n)) by lia.
    rewrite lookup_singleton_eq, insert_singleton_eq. simpl.
    do 3 f_equal. lia.
Qed.

(** X9. When every flip is tails, the histogram has the single key 1,
    with no heads and [num_trials] tails. *)
Theorem perform_trials_all_tails (num_trials : Z) (random : nat → Q) :
  1 ≤ num_trials →
  (∀ i : nat, (i < Z.to_nat num_trials)%nat → flip_coin (random i) = Tails) →
  perform_trials num_trials random = {[ 1 := (0, num_trials) ]}.
Proof.
  intros Hn Htails. unfold perform_trials. rewrite run_trials_to_nat.
  destruct (Z.to_nat num_trials) as [|n] eqn:Hnat; [lia|].
  rewrite run_all_tails by done. simpl. do 3 f_equal. lia.
Qed.

Lemma perform_trials_all_tails_witness :
  perform_trials 4 (λ _, 0%Q) = {[ 1 := (0, 4) ]}.
Proof.
  apply perform_trials_all_tails; [lia|]. intros i _. reflexivity.
Defined.

Lemma run_all_heads (n : nat) (random : nat → Q) :
  (∀ i, (i < n)%nat → flip_coin (random i) = Heads) →
  (run_trials (Z.of_nat n) random).2 = Z.of_nat n + 1
  ∧ ∀ k, (run_trials (Z.of_nat n) random).1 !! k
         = if decide (1 ≤ k ≤ Z.of_nat n) then Some (1, 0) else None.
Proof.
  induction n as [|n IH]; intros Hheads.
  - split; [done|]. intros k. simpl. rewrite lookup_empty.
    destruct (decide (1 ≤ k ≤ Z.of_nat 0)); [lia|done].
  - destruct IH as [IHc IHk]; [intros; apply Hheads; lia|].
    rewrite run_trials_succ.
    destruct (run_trials (Z.of_nat n) random) as [hc cnt].
    cbn [fst snd] in IHc, IHk. subst cnt. split.
    + rewrite trial_snd, Hheads by lia. lia.
    + intros k. destruct (decide (k = Z.of_nat n + 1)) as [->|Hne].
      * rewrite trial_fst_lookup_eq, Hheads by lia. unfold get_chain.
        rewrite IHk. destruct (decide (1 ≤ Z.of_nat n + 1 ≤ Z.of_nat n)); [lia|].
        destruct (decide (1 ≤ Z.of_nat n + 1 ≤ Z.of_nat (S n))); [done|lia].
      * rewrite trial_fst_lookup_ne, IHk by done.
        destruct (decide (1 ≤ k ≤ Z.of_nat n)),
          (decide (1 ≤ k ≤ Z.of_nat (S n))); try done; lia.
Qed.

(** X10. When every flip is heads, the histogram has the keys
    1 .. [num_trials], each with one head and no tail: the streak passes
    through every length once. *)
Theorem perform_trials_all_heads (num_trials : Z) (random : nat → Q) (k : Z) :
  (∀ i : nat, (i < Z.to_nat num_trials)%nat → flip_coin (random i) = Heads) →
  perform_trials num_trials random !! k
  = if decide (1 ≤ k ≤ num_trials) then Some (1, 0) else None.
Proof.
  intros Hheads. unfold perform_trials. rewrite run_trials_to_nat.
  rewrite (proj2 (run_all_heads _ random Hheads) k).
  destruct (decide (1 ≤ k ≤ Z.of_nat (Z.to_nat num_trials))),
    (decide (1 ≤ k ≤ num_trials)); try done; lia.
Qed.

Lemma perform_trials_all_heads_witness :
  perform_trials 4 (λ _, 1%Q) !! 3 = Some (1, 0).
Proof.
  rewrite (perform_trials_all_heads 4 (λ _, 1%Q) 3); [reflexivity|].
  intros i _. reflexivity.
Defined.

(** A further trial takes no key and no count away. *)
Lemma trial_grows (hc : gmap Z (Z * Z)) (counter : Z) (draw : Q) (k : Z) :
  (is_Some (hc !! k) → is_Some ((trial (hc, counter) draw).1 !! k))
  ∧ (get_chain hc k).1 ≤ (get_chain (trial (hc, counter) draw).1 k).1
  ∧ (get_chain hc k).2 ≤ (get_chain (trial (hc, counter) draw).1 k).2.
Proof.
  rewrite get_chain_trial. destruct (decide (k = counter)) as [->|Hne].
  - rewrite trial_fst_lookup_eq. split; [eauto|].
    destruct (flip_coin draw); simpl; lia.
  - rewrite trial_fst_lookup_ne by done. split; [done|lia].
Qed.

Lemma run_trials_grows (n n' : nat) (random : nat → Q) (k : Z) :
  (n ≤ n')%nat →
  (is_Some ((run_trials (Z.of_nat n) random).1 !! k) →
   is_Some ((run_trials (Z.of_nat n') random).1 !! k))
  ∧ (get_chain (run_trials (Z.of_nat n) random).1 k).1
    ≤ (get_chain (run_trials (Z.of_nat n') random).1 k).1
  ∧ (get_chain (run_trials (Z.of_nat n) random).1 k).2
    ≤ (get_chain (run_trials (Z.of_nat n') random).1 k).2.
Proof.
  induction 1 as [|n' Hle (IHk & IHh & IHt)]; [split_and!; [done|lia|lia]|].
  rewrite run_trials_succ.
  destruct (run_trials (Z.of_nat n') random) as [hc cnt].
  destruct (trial_grows hc cnt (random n') k) as (Hk & Hh & Ht).
  cbn [fst] in *. split_and!; [eauto|lia|lia].
Qed.

(** X11. A longer run on the same draws only adds to the histogram: every
    key stays, and no count of heads or tails goes down. *)
Theorem perform_trials_monotone (num_trials num_trials' : Z)
    (random : nat → Q) (k : Z) :
  num_trials ≤ num_trials' →
  (k ∈ dom (perform_trials num_trials random) →
   k ∈ dom (perform_trials num_trials' random))
  ∧ heads_at (perform_trials num_trials random) k
    ≤ heads_at (perform_trials num_trials' random) k
  ∧ tails_at (perform_trials num_trials random) k
    ≤ tails_at (perform_trials num_trials' random) k.
Proof.
  intros Hle. unfold perform_trials, heads_at, tails_at.
  rewrite !elem_of_dom.
  rewrite (run_trials_to_nat num_trials), (run_trials_to_nat num_trials').
  apply run_trials_grows. lia.
Qed.

Lemma perform_trials_monotone_witness :
  heads_at (perform_trials 2 (λ _, 1%Q)) 1
  ≤ heads_at (perform_trials 5 (λ _, 1%Q)) 1.
Proof.
  apply (perform_trials_monotone 2 5 (λ _, 1%Q) 1). lia.
Defined.

(** ** Result merger: totals and invariants *)

(** X12. Merging loses and invents no flip: the heads, the tails and the
    flips of the merged histogram, summed over all keys, are the sums of
    those of the inputs. *)
Theorem merge_trials_totals (trial_results : list (gmap Z (Z * Z))) :
  total_heads (merge_trials trial_results)
  = sum_Z (total_heads <$> trial_results)
  ∧ total_tails (merge_trials trial_results)
    = sum_Z (total_tails <$> trial_results)
  ∧ total_flips (merge_trials trial_results)
    = sum_Z (total_flips <$> trial_results).
Proof.
  split_and!; apply sum_over_merge_trials; intros [h1 t1] [h2 t2]; simpl; lia.
Qed.

Lemma contiguous_empty : contiguous ∅ 0.
Proof. intros k. rewrite dom_empty_L, elem_of_empty. lia. Qed.

Lemma contiguous_merge_into (d tr : gmap Z (Z * Z)) (M1 M2 : Z) :
  contiguous d M1 → contiguous tr M2 →
  contiguous (merge_into d tr) (Z.max M1 M2).
Proof.
  intros H1 H2 k. rewrite dom_merge_into, elem_of_union, (H1 k), (H2 k). lia.
Qed.

Lemma contiguous_merge_trials (trs : list (gmap Z (Z * Z))) :
  Forall (λ tr, ∃ M, contiguous tr M) trs →
  ∃ M, contiguous (merge_trials trs) M.
Proof.
  induction 1 as [|tr trs [M1 H1] _ [M2 H2]].
  - exists 0. rewrite merge_trials_nil. apply contiguous_empty.
  - exists (Z.max M1 M2). rewrite merge_trials_cons.
    by apply contiguous_merge_into.
Qed.

Lemma counted_merge_into (d tr : gmap Z (Z * Z)) :
  counted d → counted tr → counted (merge_into d tr).
Proof.
  intros H1 H2 k c. rewrite merge_into_lookup.
  destruct (d !! k) as [c1|] eqn:Hd, (tr !! k) as [c2|] eqn:Ht; simpl;
    try done.
  - unfold add_chain. intros [= <-]. simpl.
    specialize (H1 _ _ Hd). specialize (H2 _ _ Ht). lia.
  - intros [= <-]. eauto.
  - intros [= <-]. eauto.
Qed.

Lemma counted_merge_trials (trs : list (gmap Z (Z * Z))) :
  Forall counted trs → counted (merge_trials trs).
Proof.
  induction 1 as [|tr trs H1 _ IH].
  - rewrite merge_trials_nil. intros k c. by rewrite lookup_empty.
  - rewrite merge_trials_cons. by apply counted_merge_into.
Qed.

(** X13. Merging keeps what the trial runner guarantees of a histogram:
    if the keys of every input are the lengths from 1 to some longest one,
    so are the keys of the merged histogram; and if no input has a
    negative count or an all-zero entry, neither has the merged one. *)
Theorem merge_trials_keeps_invariants (trial_results : list (gmap Z (Z * Z))) :
  (Forall (λ tr, ∃ longest, contiguous tr longest) trial_results →
   ∃ longest, contiguous (merge_trials trial_results) longest)
  ∧ (Forall counted trial_results → counted (merge_trials trial_results)).
Proof.
  split; [apply contiguous_merge_trials|apply counted_merge_trials].
Qed.

Lemma merge_trials_keeps_invariants_witness :
  ∃ longest,
    contiguous (merge_trials [ {[ 1 := (1, 1) ]};
                               {[ 1 := (2, 0); 2 := (0, 1) ]} ]) longest.
Proof.
  apply (proj1 (merge_trials_keeps_invariants
                  [ {[ 1 := (1, 1) ]}; {[ 1 := (2, 0); 2 := (0, 1) ]} ])).
  repeat apply Forall_cons_2; [| |apply Forall_nil_2].
  - exists 1. intros k. rewrite dom_singleton_L, elem_of_singleton. lia.
  - exists 2. intros k.
    rewrite dom_insert_L, dom_singleton_L, elem_of_union, !elem_of_singleton.
    lia.
Defined.

(** ** The functions on objects: values and new objects *)

(** X14. On objects, [merge_trials] returns a dictionary that stands for
    the element-wise sum of the values of its inputs: what is proved of
    the merger on values holds of the dictionary the code builds by
    copying and incrementing lists. *)
Theorem store_merge_trials_value (trial_results : list nat)
    (values : list (gmap Z (Z * Z))) (s : list Store.obj) :
  Forall2 (λ tr m, Store.is_trial_result s tr
                   ∧ Store.value_of s tr = Some m) trial_results values →
  ∃ (d : nat) (s' : list Store.obj),
    Store.merge_trials trial_results s = Some (d, s')
    ∧ Store.value_of s' d = Some (merge_trials values).
Proof.
  intros Hin.
  destruct (store_merge_trials_refines s trial_results values Hin)
    as (s' & items' & Hrun & Howns).
  exists (length s), s'. split; [done|]. by eapply owns_value_of.
Qed.

Lemma store_merge_trials_value_witness :
  ∃ (d : nat) (s' : list Store.obj),
    Store.merge_trials [0; 0]%nat [Store.Dict [(1, 1%nat)]; Store.List2 2 1]
    = Some (d, s')
    ∧ Store.value_of s' d = Some (merge_trials [ {[ 1 := (2, 1) ]};
                                                 {[ 1 := (2, 1) ]} ]).
Proof.
  apply store_merge_trials_value.
  assert (H : Store.is_trial_result
                [Store.Dict [(1, 1%nat)]; Store.List2 2 1] 0%nat
              ∧ Store.value_of [Store.Dict [(1, 1%nat)]; Store.List2 2 1] 0%nat
                = Some {[ 1 := (2, 1) ]}).
  { split; [|reflexivity].
    exists [(1, 1%nat)]. split; [reflexivity|].
    split; apply (bool_decide_unpack _); vm_compute; exact I. }
  repeat apply Forall2_cons_2; [exact H|exact H|apply Forall2_nil_2].
Defined.

(** A turn of the trial loop makes one object, the list [[0, 0]], whether
    it is stored or not. *)
Lemma store_trial_length (d : nat) (counter counter' : Z) (draw : Q)
    (s s' : list Store.obj) :
  Store.trial d counter draw s = Some (counter', s') →
  length s' = S (length s).
Proof.
  unfold Store.trial, Store.new_list, Store.alloc, Store.contains,
    Store.getitem, Store.setitem, Store.iadd0, Store.iadd1, Store.get_dict,
    Store.get_list, Store.put, Store.raise, mbind, mret, Store.M_bind,
    Store.M_ret.
  intros H. repeat case_match; simplify_eq;
    rewrite ?length_insert, ?length_app; simpl; lia.
Qed.

Lemma store_trials_length (d : nat) (draws : list Q) :
  ∀ (counter counter' : Z) (s s' : list Store.obj),
    Store.trials d counter draws s = Some (counter', s') →
    length s' = (length s + length draws)%nat.
Proof.
  induction draws as [|draw draws IH]; intros counter counter' s s'.
  - intros [= _ <-]. simpl. lia.
  - cbn [Store.trials]. unfold mbind, Store.M_bind.
    destruct (Store.trial d counter draw s) as [[c1 s1]|] eqn:Hstep; [|done].
    intros Hrest. apply IH in Hrest.
    apply store_trial_length in Hstep. simpl. lia.
Qed.

(** X15. On any store the trial runner succeeds and touches nothing that
    was there: every old object is unchanged, the dictionary it returns
    and the lists in it are new, no list is stored under two keys, and it
    makes one object for the dictionary and one list for every trial. *)
Theorem store_perform_trials_new_objects (num_trials : Z) (random : nat → Q)
    (s : list Store.obj) :
  ∃ (head_chains : nat) (s' : list Store.obj),
    Store.perform_trials num_trials random s = Some (head_chains, s')
    ∧ unchanged s s'
    ∧ s !! head_chains = None
    ∧ (∀ v, v ∈ Store.values_of s' head_chains → s !! v = None)
    ∧ NoDup (Store.values_of s' head_chains)
    ∧ length s' = (length s + 1 + Z.to_nat num_trials)%nat.
Proof.
  destruct (store_perform_trials_refines num_trials random s)
    as (s' & items' & Hrun & Howns).
  exists (length s), s'.
  assert (Hvalues : Store.values_of s' (length s) = items'.*2).
  { unfold Store.values_of. by rewrite (owns_dict_at _ _ _ _ _ Howns). }
  split_and!.
  - exact Hrun.
  - by eapply owns_unchanged.
  - by apply lookup_ge_None.
  - intros v. rewrite Hvalues. intros Hv. apply lookup_ge_None.
    by destruct (owns_value_list _ _ _ _ _ Howns v Hv).
  - rewrite Hvalues. apply Howns.
  - unfold Store.perform_trials, Store.new_dict, Store.alloc, mbind,
      Store.M_bind in Hrun.
    destruct (Store.trials _ _ _ _) as [[c s1]|] eqn:Hloop; [|done].
    apply store_trials_length in Hloop.
    rewrite length_app, length_fmap, length_seq in Hloop.
    unfold mret, Store.M_ret in Hrun. simplify_eq. simpl in Hloop. lia.
Qed.

(** ** The entry point: errors, the report, and what is left alone *)

(** [max(d.keys())]: nothing for the empty dictionary, otherwise a key
    that no key exceeds. *)
Lemma max_key_spec (d : gmap Z (Z * Z)) :
  match max_key d with
  | None => d = ∅
  | Some m => is_Some (d !! m) ∧ ∀ k, is_Some (d !! k) → k ≤ m
  end.
Proof.
  unfold max_key.
  apply (map_fold_weak_ind
           (λ (r : option Z) (d : gmap Z (Z * Z)),
              match r with
              | None => d = ∅
              | Some m => is_Some (d !! m) ∧ ∀ k, is_Some (d !! k) → k ≤ m
              end)); [done|].
  intros i x m r Hi IH. destruct r as [a|]; simpl.
  - destruct IH as [Ha Hmax]. split.
    + destruct (Z.max_spec i a) as [[_ ->]|[_ ->]].
      * rewrite lookup_insert_ne; [done|]. intros ->.
        rewrite Hi in Ha. by destruct Ha.
      * rewrite lookup_insert_eq. eauto.
    + intros k. destruct (decide (k = i)) as [->|Hne]; [lia|].
      rewrite lookup_insert_ne by done. intros Hk%Hmax. lia.
  - subst m. split; [rewrite lookup_insert_eq; eauto|].
    intros k. destruct (decide (k = i)) as [->|Hne]; [lia|].
    rewrite lookup_insert_ne, lookup_empty by done. by intros [? ?].
Qed.

Lemma max_key_empty : max_key ∅ = None.
Proof. reflexivity. Qed.

Lemma merge_trials_all_empty (trs : list (gmap Z (Z * Z))) :
  Forall (λ tr, tr = ∅) trs → merge_trials trs = ∅.
Proof.
  induction 1 as [|tr trs -> _ IH]; [done|].
  by rewrite merge_trials_cons, IH.
Qed.

(** The batches when there is nothing to do. *)
Lemma batch_sizes_nonpos (num_trials num_workers : Z) (sizes : list Z) :
  num_trials ≤ 0 → 1 ≤ num_workers →
  yield_worker_batch_sizes num_trials num_workers = Ok sizes →
  Forall (λ b, b ≤ 0) sizes.
Proof.
  intros Hn Hw. rewrite batch_sizes_ok by lia. intros [= <-].
  apply Forall_forall. intros b [i Hi]%list_elem_of_lookup.
  apply batch_size_lookup_inv in Hi as [_ ->].
  destruct (decide (num_trials = 0)) as [->|Hneg].
  - rewrite Z.div_0_l by lia.
    destruct (Z.ltb_spec (Z.of_nat i) (0 - 0 * num_workers)); simpl; lia.
  - assert (num_trials `div` num_workers < 0)
      by (apply Z.div_lt_upper_bound; lia).
    destruct (_ <? _); simpl; lia.
Qed.

(** The first batch is the largest: it is not empty when there is a
    trial to make. *)
Lemma first_batch_pos (num_trials num_workers : Z) (sizes : list Z) :
  1 ≤ num_trials → 1 ≤ num_workers →
  yield_worker_batch_sizes num_trials num_workers = Ok sizes →
  ∃ b rest, sizes = b :: rest ∧ 1 ≤ b.
Proof.
  intros Hn Hw Hsizes.
  pose proof (batch_sizes_length _ _ _ Hsizes) as Hlen.
  destruct sizes as [|b rest]; [simpl in Hlen; lia|].
  exists b, rest. split; [done|].
  rewrite batch_sizes_ok in Hsizes by lia. injection Hsizes as Hsizes.
  assert (Hb : ((λ i, num_trials `div` num_workers
                      + Z.b2z (i <? num_trials
                                    - num_trials `div` num_workers
                                      * num_workers))
                  <$> range num_workers) !! 0%nat = Some b)
    by (by rewrite Hsizes).
  apply batch_size_lookup_inv in Hb as [_ ->].
  pose proof (Z.div_pos num_trials num_workers ltac:(lia) ltac:(lia)).
  destruct (Z.ltb_spec (Z.of_nat 0)
              (num_trials - num_trials `div` num_workers * num_workers));
    simpl; nia.
Qed.

(** A run of at least one trial has the key 1. *)
Lemma perform_trials_key_1 (num_trials : Z) (random : nat → Q) :
  1 ≤ num_trials → is_Some (perform_trials num_trials random !! 1).
Proof.
  intros Hn. unfold perform_trials. rewrite run_trials_to_nat.
  apply keys_contiguous. rewrite <- max_streak_to_nat.
  pose proof (max_streak_upper num_trials random 0 ltac:(lia)) as H.
  unfold counter_at in H. simpl in H. lia.
Qed.






(** The order of arrival does not show in the merged histogram. *)
Lemma merge_collect (e : env) (num_trials num_workers : Z) (sizes : list Z) :
  yield_worker_batch_sizes num_trials num_workers = Ok sizes →
  merge_trials (collect e num_workers sizes)
  = merge_trials (worker_results e sizes).
Proof. intros H. apply merge_trials_perm. by eapply collect_perm. Qed.

(** What [main] does once the output path is clear and the batches are
    known, in terms of the merged histogram of the workers. *)
Lemma main_run (out_file : string) (num_trials num_workers : option Z)
    (e : env) (w : world) (sizes : list Z) :
  isfile w out_file = false →
  yield_worker_batch_sizes (default 1000 num_trials) (default 1 num_workers)
  = Ok sizes →
  main out_file num_trials num_workers e w
  = let merged := merge_trials (worker_results e sizes) in
    let w1 := emit [PrintedTiming (default 1000 num_trials)]
                (emit (Started <$> sizes) w) in
    match max_key merged with
    | None => (w1, Raise ValueError)
    | Some m =>
        match files w !! out_file with
        | Some Directory => (w1, Raise IsADirectoryError)
        | _ =>
            match open_fails e out_file with
            | Some failure => (w1, Raise (open_exn failure))
            | None =>
                (emit [PrintedDumped out_file]
                   (World (<[out_file := File ["chain_length"; "heads"; "tails"]
                                              (csv_rows merged m)]> (files w))
                          (log w1)),
                 Ok ())
            end
        end
    end.
Proof.
  intros Hfile Hsizes. unfold main. cbv zeta.
  rewrite Hfile, Hsizes, (merge_collect _ _ _ _ Hsizes). reflexivity.
Qed.

(** X16. [main] raises [ZeroDivisionError] exactly when the output path
    is clear and the worker count is zero, and then nothing has happened:
    no process was started and no file was written. *)
Theorem main_zero_workers (out_file : string) (num_trials num_workers : option Z)
    (e : env) (w : world) :
  ((main out_file num_trials num_workers e w).2 = Raise ZeroDivisionError
   ↔ isfile w out_file = false ∧ default 1 num_workers = 0)
  ∧ ((main out_file num_trials num_workers e w).2 = Raise ZeroDivisionError →
     (main out_file num_trials num_workers e w).1 = w).
Proof.
  destruct (isfile w out_file) eqn:Hfile.
  { unfold main. rewrite Hfile. simpl. split; [split|]; [done| |done].
    by intros [? _]. }
  destruct (yield_worker_batch_sizes (default 1000 num_trials)
              (default 1 num_workers)) as [sizes|x] eqn:Hsizes.
  - rewrite (main_run _ _ _ _ _ sizes Hfile Hsizes). cbv zeta.
    assert (Hw : default 1 num_workers ≠ 0).
    { intros Hz. rewrite Hz in Hsizes. unfold yield_worker_batch_sizes in Hsizes.
      by destruct (decide (0 = 0)). }
    destruct (max_key _);
      [destruct (files w !! out_file) as [[]|];
       try destruct (open_fails e out_file) as [[]|]|];
      simpl; (split; [split|]; [done| |done]); by intros [_ ?].
  - unfold main. rewrite Hfile, Hsizes. simpl.
    unfold yield_worker_batch_sizes in Hsizes.
    destruct (decide (default 1 num_workers = 0)) as [Hz|]; [|done].
    simplify_eq. by split.
Qed.

Lemma main_zero_workers_witness :
  (main "out.csv" (Some 7) (Some 0) all_tails empty_world).2
  = Raise ZeroDivisionError.
Proof.
  apply (main_zero_workers "out.csv" (Some 7) (Some 0) all_tails empty_world).
  by split.
Defined.


(** With a trial to make and a worker to make it, the merged histogram
    has the key 1. *)
Lemma merged_key_1 (e : env) (num_trials num_workers : Z) (sizes : list Z) :
  1 ≤ num_trials → 1 ≤ num_workers →
  yield_worker_batch_sizes num_trials num_workers = Ok sizes →
  is_Some (merge_trials (worker_results e sizes) !! 1).
Proof.
  intros Hn Hw Hsizes.
  destruct (first_batch_pos _ _ _ Hn Hw Hsizes) as (b & rest & -> & Hb).
  apply elem_of_dom. rewrite dom_merge_trials.
  unfold worker_results. rewrite imap_cons. csimpl.
  apply elem_of_union_l, elem_of_dom. by apply perform_trials_key_1.
Qed.

(** Without a trial to make, or with a negative worker count, the merged
    histogram is empty. *)
Lemma merged_empty (e : env) (num_trials num_workers : Z) (sizes : list Z) :
  num_trials ≤ 0 ∨ num_workers < 0 →
  yield_worker_batch_sizes num_trials num_workers = Ok sizes →
  merge_trials (worker_results e sizes) = ∅.
Proof.
  intros Hnone Hsizes. apply merge_trials_all_empty.
  destruct (decide (num_workers < 0)) as [Hneg|Hpos].
  - pose proof (batch_sizes_length _ _ _ Hsizes) as Hlen.
    destruct sizes; [apply Forall_nil_2|simpl in Hlen; lia].
  - assert (num_workers ≠ 0).
    { intros ->. unfold yield_worker_batch_sizes in Hsizes.
      by destruct (decide (0 = 0)). }
    assert (Hall : Forall (λ b, b ≤ 0) sizes)
      by (apply (batch_sizes_nonpos num_trials num_workers); [lia|lia|done]).
    apply Forall_forall. intros tr [i Hi]%list_elem_of_lookup.
    unfold worker_results in Hi. rewrite list_lookup_imap in Hi.
    destruct (sizes !! i) as [b|] eqn:Hb; [|done]. simpl in Hi. simplify_eq.
    rewrite Forall_forall in Hall.
    unfold perform_trials. rewrite run_trials_nonpos; [done|].
    apply Hall. by eapply list_elem_of_lookup_2.
Qed.

(** X17. [main] raises [ValueError] exactly when the output path is
    clear, the worker count is not zero, and either there is no trial to
    make or the worker count is negative, so that [max] gets no keys, or
    there are trials and workers and [open] raises it for a NUL character
    in the path.  By then the processes have been started and the timing
    line printed, but no file is written. *)
Theorem main_value_error (out_file : string) (num_trials num_workers : option Z)
    (e : env) (w : world) :
  ((main out_file num_trials num_workers e w).2 = Raise ValueError
   ↔ isfile w out_file = false
     ∧ default 1 num_workers ≠ 0
     ∧ ((default 1000 num_trials ≤ 0 ∨ default 1 num_workers < 0)
        ∨ (1 ≤ default 1000 num_trials
           ∧ 1 ≤ default 1 num_workers
           ∧ files w !! out_file ≠ Some Directory
           ∧ open_fails e out_file = Some EmbeddedNul)))
  ∧ ((main out_file num_trials num_workers e w).2 = Raise ValueError →
     files (main out_file num_trials num_workers e w).1 = files w
     ∧ ∃ sizes,
         yield_worker_batch_sizes (default 1000 num_trials)
           (default 1 num_workers) = Ok sizes
         ∧ log (main out_file num_trials num_workers e w).1
           = log w ++ (Started <$> sizes)
             ++ [PrintedTiming (default 1000 num_trials)]).
Proof.
  destruct (isfile w out_file) eqn:Hfile.
  { unfold main. rewrite Hfile. simpl. split; [split|]; [done| |done].
    by intros [? _]. }
  destruct (yield_worker_batch_sizes (default 1000 num_trials)
              (default 1 num_workers)) as [sizes|x] eqn:Hsizes.
  - rewrite (main_run _ _ _ _ _ sizes Hfile Hsizes). cbv zeta.
    assert (Hw : default 1 num_workers ≠ 0).
    { intros Hz. rewrite Hz in Hsizes. unfold yield_worker_batch_sizes in Hsizes.
      by destruct (decide (0 = 0)). }
    assert (Hlog : log (emit [PrintedTiming (default 1000 num_trials)]
                          (emit (Started <$> sizes) w))
                   = log w ++ (Started <$> sizes)
                     ++ [PrintedTiming (default 1000 num_trials)])
      by (simpl; by rewrite <- app_assoc).
    pose proof (max_key_spec (merge_trials (worker_results e sizes))) as Hmax.
    destruct (max_key _) as [m|].
    + assert (Hsome : ¬ (default 1000 num_trials ≤ 0
                         ∨ default 1 num_workers < 0)).
      { intros Hnone. rewrite (merged_empty e _ _ _ Hnone Hsizes) in Hmax.
        destruct Hmax as [[c Hc] _]. by rewrite lookup_empty in Hc. }
      destruct (files w !! out_file) as [[header rows|]|] eqn:Hlookup.
      * unfold isfile in Hfile. by rewrite Hlookup in Hfile.
      * simpl. split; [split; [done|]|done].
        intros (_ & _ & [?|(_ & _ & Hd & _)]); done.
      * destruct (open_fails e out_file) as [[| |name]|]; simpl.
        -- split; [split; [done|]|done].
           intros (_ & _ & [?|(_ & _ & _ & ?)]); done.
        -- split; [split; [intros _|done]|intros _].
           ++ split_and!; [done|done|]. right. split_and!; [lia|lia|done|done].
           ++ split; [done|]. by exists sizes.
        -- split; [split; [done|]|done].
           intros (_ & _ & [?|(_ & _ & _ & ?)]); done.
        -- split; [split; [done|]|done].
           intros (_ & _ & [?|(_ & _ & _ & ?)]); done.
    + simpl. split; [split; [intros _|done]|intros _].
      * split_and!; [done|done|]. left.
        destruct (decide (default 1000 num_trials ≤ 0)); [by left|].
        destruct (decide (default 1 num_workers < 0)); [by right|].
        exfalso.
        destruct (merged_key_1 e (default 1000 num_trials)
                    (default 1 num_workers) sizes ltac:(lia) ltac:(lia)
                    Hsizes) as [c Hc].
        rewrite Hmax in Hc. by rewrite lookup_empty in Hc.
      * split; [done|]. by exists sizes.
  - unfold main. rewrite Hfile, Hsizes. simpl.
    unfold yield_worker_batch_sizes in Hsizes.
    destruct (decide (default 1 num_workers = 0)) as [Hz|]; [|done].
    simplify_eq. split; [split|]; [done| |done]. by intros (_ & ? & _).
Qed.

Lemma main_value_error_witness :
  (main "out.csv" (Some 0) (Some 3) all_tails empty_world).2
  = Raise ValueError.
Proof.
  apply (main_value_error "out.csv" (Some 0) (Some 3) all_tails empty_world).
  split_and!; [reflexivity|done|left; left; simpl; lia].
Defined.



(** X19. The order in which the queue hands over the results of the
    workers does not show: with the same draws, [main] ends in the same
    world with the same result, whatever the order of arrival. *)
Theorem main_arrival_order_irrelevant (out_file : string)
    (num_trials num_workers : option Z) (random : nat → nat → Q)
    (arrival1 arrival2 : nat → nat)
    (open_fails : string → option open_failure) (w : world) :
  main out_file num_trials num_workers (Env random arrival1 open_fails) w
  = main out_file num_trials num_workers (Env random arrival2 open_fails) w.
Proof.
  destruct (isfile w out_file) eqn:Hfile.
  { unfold main. by rewrite Hfile. }
  destruct (yield_worker_batch_sizes (default 1000 num_trials)
              (default 1 num_workers)) as [sizes|x] eqn:Hsizes.
  - by rewrite !(main_run _ _ _ _ _ sizes Hfile Hsizes).
  - unfold main. by rewrite Hfile, Hsizes.
Qed.



(** ** The keys of the histogram and the runs of heads *)

Lemma length_outcomes (n : nat) (random : nat → Q) :
  length (outcomes (Z.of_nat n) random) = n.
Proof. unfold outcomes. by rewrite length_fmap, length_seq, Nat2Z.id. Qed.

Lemma take_outcomes (i n : nat) (random : nat → Q) :
  (i ≤ n)%nat →
  take i (outcomes (Z.of_nat n) random) = outcomes (Z.of_nat i) random.
Proof.
  intros Hi. unfold outcomes.
  rewrite <- fmap_take, !Nat2Z.id, take_seq. do 2 f_equal. lia.
Qed.

(** The counter at a flip is one more than the number of heads right
    before it. *)
Lemma counter_at_heads (random : nat → Q) (i : nat) :
  counter_at random i
  = Z.of_nat (leading_heads (reverse (outcomes (Z.of_nat i) random))) + 1.
Proof.
  induction i as [|i IH]; [done|].
  rewrite counter_at_succ, outcomes_succ, reverse_snoc, IH.
  destruct (flip_coin (random i)); simpl leading_heads; lia.
Qed.

Lemma counter_at_heads_before (random : nat → Q) (i n : nat) :
  (i ≤ n)%nat →
  counter_at random i = heads_before (outcomes (Z.of_nat n) random) i + 1.
Proof.
  intros Hi. unfold heads_before. rewrite take_outcomes by done.
  apply counter_at_heads.
Qed.

Lemma max_list_succ {A : Type} (f : A → Z) (l : list A) :
  l ≠ [] → (∀ x, 0 ≤ f x) →
  foldr Z.max 0 ((λ x, f x + 1) <$> l) = foldr Z.max 0 (f <$> l) + 1.
Proof.
  intros Hl Hf. induction l as [|x l IH]; [done|].
  destruct l as [|y l].
  - simpl. specialize (Hf x). lia.
  - rewrite !fmap_cons. cbn [foldr]. rewrite !fmap_cons in IH.
    cbn [foldr] in IH. rewrite IH by done. lia.
Qed.

(** The longest streak a flip is counted against is one more than the
    longest run of heads among the flips before the last. *)
Lemma max_streak_longest_run (n : nat) (random : nat → Q) :
  max_streak (Z.of_nat (S n)) random
  = longest_run (outcomes (Z.of_nat n) random) + 1.
Proof.
  unfold max_streak, longest_run.
  rewrite length_outcomes, Nat2Z.id.
  rewrite <- (max_list_succ (heads_before (outcomes (Z.of_nat n) random)));
    [|done|intros i; unfold heads_before; lia].
  f_equal. apply list_fmap_ext. intros j i Hi.
  apply lookup_seq in Hi as [-> Hi].
  apply counter_at_heads_before. lia.
Qed.

(** C5, as the code has it.  The keys of the histogram of the trial
    runner are the integers from 1 to one more than the longest run of
    consecutive heads among all flips but the last, without gaps: [k] is a
    key exactly when some flip comes right after at least [k - 1] heads.
    There is no key when no flip is made. *)
Theorem perform_trials_keys_runs (num_trials : Z) (random : nat → Q) :
  (1 ≤ num_trials →
   ∀ k : Z, k ∈ dom (perform_trials num_trials random)
            ↔ 1 ≤ k ≤ longest_run (outcomes (num_trials - 1) random) + 1)
  ∧ (∀ k : Z, k ∈ dom (perform_trials num_trials random)
              ↔ 1 ≤ k
                ∧ ∃ i : nat,
                    (i < Z.to_nat num_trials)%nat
                    ∧ k ≤ heads_before (outcomes num_trials random) i + 1)
  ∧ (num_trials ≤ 0 → perform_trials num_trials random = ∅).
Proof.
  assert (Hkeys : ∀ k : Z, k ∈ dom (perform_trials num_trials random)
                           ↔ 1 ≤ k ≤ max_streak num_trials random).
  { intros k. rewrite elem_of_dom. unfold perform_trials.
    rewrite run_trials_to_nat, max_streak_to_nat.
    apply keys_contiguous. }
  assert (Hout : outcomes num_trials random
                 = outcomes (Z.of_nat (Z.to_nat num_trials)) random)
    by (unfold outcomes; by rewrite Nat2Z.id).
  split_and!.
  - intros Hn k. rewrite Hkeys, max_streak_to_nat.
    destruct (Z.to_nat num_trials) as [|n] eqn:Hnat; [lia|].
    rewrite max_streak_longest_run.
    replace (num_trials - 1) with (Z.of_nat n) by lia. done.
  - intros k. rewrite Hkeys, Hout. split.
    + intros [Hk1 Hk]. split; [done|].
      destruct (decide (1 ≤ num_trials)) as [Hn|Hn];
        [|rewrite max_streak_nonpos in Hk; lia].
      destruct (max_streak_attained num_trials random Hn) as (i & Hi & Heq).
      exists i. split; [done|].
      rewrite <- (counter_at_heads_before random i) by lia. lia.
    + intros (Hk1 & i & Hi & Hk). split; [done|].
      rewrite <- (counter_at_heads_before random i) in Hk by lia.
      pose proof (max_streak_upper num_trials random i Hi). lia.
  - intros Hn. unfold perform_trials. by rewrite run_trials_nonpos.
Qed.

Lemma perform_trials_keys_runs_witness :
  3 ∈ dom (perform_trials 3 heads_heads_tails)
  ↔ 1 ≤ 3 ≤ longest_run (outcomes (3 - 1) heads_heads_tails) + 1.
Proof.
  apply (perform_trials_keys_runs 3 heads_heads_tails). lia.
Defined.

(** The claim of C5 as the specification states it fails when a streak is
    a run of heads: after heads, heads, tails the longest run has length
    2, but the tail was counted against length 3, so 3 is a key. *)
Lemma perform_trials_keys_counterexample :
  longest_run (outcomes 3 heads_heads_tails) = 2
  ∧ dom (perform_trials 3 heads_heads_tails) = {[ 1; 2; 3 ]}
  ∧ ¬ (∀ k : Z, k ∈ dom (perform_trials 3 heads_heads_tails)
                ↔ 1 ≤ k ≤ longest_run (outcomes 3 heads_heads_tails)).
Proof.
  assert (Hrun : longest_run (outcomes 3 heads_heads_tails) = 2)
    by (vm_compute; reflexivity).
  assert (Hdom : dom (perform_trials 3 heads_heads_tails) = {[ 1; 2; 3 ]})
    by (vm_compute; reflexivity).
  split_and!; [done|done|].
  intros Hall. specialize (Hall 3). rewrite Hrun, Hdom in Hall.
  assert (1 ≤ 3 ≤ 2); [|lia]. apply Hall. set_solver.
Qed.
